(** * Swapping / thrashing simulator: a shallow embedding of the core

    The JavaScript classes [Page], [Frame], [DiskBlock], [SwapSystem],
    [FIFO], [LRU] and [SimulationEngine] are embedded as Rocq records and
    state-passing functions.  Objects that the JS code shares by reference
    (pages held by frames, blocks, LRU nodes and processes) live in one
    store, [allPages : gmap nat Page.t], keyed by page id, and the other
    structures hold page ids; frames and blocks are referred to by their
    id, which is their index in the [frames] / [blocks] arrays.

    Conventions of the embedding:
    - times ([Date.now()], [simulationTime], timestamps) are integers
      [Z] in milliseconds; [Date.now()] is an argument [now] of the
      operation that reads it (it does not move during one synchronous
      call);
    - JS numbers computed by a division (I/O rate, hit ratio,
      utilisations) are binary64 doubles, Rocq's primitive [float]; the
      threshold test of [checkThrashing] reads the I/O rate as the exact
      rational [Q] (see [SwapSystem.getIORate]);
    - a JS string is a Rocq [string] holding its UTF-8 encoding (see
      [Engine.toUpperCase]);
    - callbacks are recorded as a list of emitted [event]s (every
      callback is taken to be registered);
    - fields used only for rendering (mesh, colour, 3D positions, angle,
      radius, icon) are left out. *)

From Stdlib Require Import ZArith QArith Qround Qminmax String Ascii.
From Stdlib Require PrimFloat SpecFloat FloatOps.
From stdpp Require Import base list gmap sorting.
Import (notations) PrimFloat.

Open Scope Z_scope.

(* ------------------------------------------------------------------ *)
(** ** JavaScript numbers *)

(** [Number] of an integer [z]: the nearest double, ties to even. *)
Definition Number_of_Z (z : Z) : PrimFloat.float :=
  FloatOps.SF2Prim (SpecFloat.binary_normalize FloatOps.prec FloatOps.emax z 0 false).

(** [Number] of a rational written [p # q] in the source (an integer
    constant such as [thrashingThreshold = 5], where [q = 1] and the
    division is exact). *)
Definition Number_of_Q (q : Q) : PrimFloat.float :=
  (Number_of_Z (Qnum q) / Number_of_Z (Zpos (Qden q)))%float.

(** The exact value of a finite double; [0] for NaN and the infinities. *)
Definition Q_of_float (x : PrimFloat.float) : Q :=
  match FloatOps.Prim2SF x with
  | SpecFloat.S754_finite sg m e =>
      ((if sg then -1 else 1) * inject_Z (Zpos m) * Qpower (2 # 1) e)%Q
  | _ => 0%Q
  end.

(** [Math.min(a, b)]: NaN if either is NaN, and [-0] below [+0]. *)
Definition Math_min (a b : PrimFloat.float) : PrimFloat.float :=
  if PrimFloat.is_nan a || PrimFloat.is_nan b then PrimFloat.nan
  else if PrimFloat.ltb a b then a
  else if PrimFloat.ltb b a then b
  else if PrimFloat.get_sign a then a else b.

(* ------------------------------------------------------------------ *)
(** ** Page, Frame, DiskBlock (src/js/core/Page.js, Frame.js,
       src/unnamed/part_002) *)

Inductive location := LRam | LDisk | LNone.

#[global] Instance location_eq_dec : EqDecision location.
Proof. solve_decision. Defined.

Module Page.
Record t := mk {
  id : nat;
  processId : nat;
  frameId : option nat;
  diskBlockId : option nat;
  location : location;
  lastAccessTime : Z;
  loadTime : Z;
  accessCount : nat;
  referenceBit : nat
}.

(** [new Page(id, processId, processName)] *)
Definition new (i pr : nat) : t :=
  mk i pr None None LNone 0 0 0 0.

(** [access(timestamp)] *)
Definition access (p : t) (ts : Z) : t :=
  mk (id p) (processId p) (frameId p) (diskBlockId p) (location p)
     ts (loadTime p) (S (accessCount p)) 1.

(** [moveToRAM(frameId, timestamp)] *)
Definition moveToRAM (p : t) (f : nat) (ts : Z) : t :=
  mk (id p) (processId p) (Some f) None LRam
     ts ts (accessCount p) (referenceBit p).

(** [moveToDisk(diskBlockId)] *)
Definition moveToDisk (p : t) (b : nat) : t :=
  mk (id p) (processId p) None (Some b) LDisk
     (lastAccessTime p) (loadTime p) (accessCount p) 0.

(** [page.loadTime = timestamp] (done by [FIFO.onPageLoad]) *)
Definition setLoadTime (p : t) (ts : Z) : t :=
  mk (id p) (processId p) (frameId p) (diskBlockId p) (location p)
     (lastAccessTime p) ts (accessCount p) (referenceBit p).
End Page.

Module Frame.
Record t := mk { id : nat; page : option nat; isFree : bool }.
Definition new (i : nat) : t := mk i None true.
Definition allocate (f : t) (pg : nat) : t := mk (id f) (Some pg) false.
Definition free (f : t) : t := mk (id f) None true.
Definition isOccupied (f : t) : bool := negb (isFree f).
End Frame.

Module DiskBlock.
Record t := mk { id : nat; page : option nat; isFree : bool }.
Definition new (i : nat) : t := mk i None true.
Definition allocate (b : t) (pg : nat) : t := mk (id b) (Some pg) false.
Definition free (b : t) : t := mk (id b) None true.
Definition isOccupied (b : t) : bool := negb (isFree b).
End DiskBlock.

(** Reading and updating a page of the store by id (a JS reference to
    the page object).  A page id that is not in the store is never
    produced by the engine; [upd_page] leaves the store alone there. *)
Definition upd_page (pages : gmap nat Page.t) (k : nat) (f : Page.t -> Page.t)
  : gmap nat Page.t := alter f k pages.

(* ------------------------------------------------------------------ *)
(** ** SwapSystem (src/js/core/SwapSystem.js) *)

Inductive io_type := IOIn | IOOut.

Module SwapSystem.
Record ioOp := mkOp { time : Z; type : io_type }.

Record t := mk {
  blockCount : nat;
  blocks : list DiskBlock.t;
  freeBlocks : list nat;        (** the free [DiskBlock]s, by id *)
  swapInCount : nat;
  swapOutCount : nat;
  ioOperations : list ioOp;
  ioWindow : Z
}.

(** [initialize()]: blocks [0 .. blockCount-1], all free. *)
Definition initialize (s : t) : t :=
  mk (blockCount s) (map DiskBlock.new (seq 0 (blockCount s)))
     (seq 0 (blockCount s)) (swapInCount s) (swapOutCount s)
     (ioOperations s) (ioWindow s).

(** [new SwapSystem(blockCount)] *)
Definition new (n : nat) : t := initialize (mk n [] [] 0 0 [] 1000).

Definition in_window (s : t) (now : Z) (op : ioOp) : bool :=
  bool_decide (now - time op < ioWindow s).

(** [recordIO(type)] at time [now] *)
Definition recordIO (s : t) (ty : io_type) (now : Z) : t :=
  mk (blockCount s) (blocks s) (freeBlocks s) (swapInCount s) (swapOutCount s)
     (filter (fun op => in_window s now op = true)
             (ioOperations s ++ [mkOp now ty]))
     (ioWindow s).

(** The number of operations [getIORate()] keeps at time [now]:
    [recentOps.length]. *)
Definition recentOps (s : t) (now : Z) : nat :=
  length (filter (fun op => in_window s now op = true) (ioOperations s)).

(** [getIORate()] at time [now], the double the JS returns:
    [(recentOps.length / this.ioWindow) * 1000]. *)
Definition getIORate_f64 (s : t) (now : Z) : PrimFloat.float :=
  (Number_of_Z (Z.of_nat (recentOps s now)) / Number_of_Z (ioWindow s) * 1000)%float.

(** The same expression read as an exact rational.  [checkThrashing]
    compares it with its threshold; with the window and the threshold
    fixed in the code (1000 and 5) the double gives the same outcome. *)
Definition getIORate (s : t) (now : Z) : Q :=
  (inject_Z (Z.of_nat (length (filter (fun op => in_window s now op = true)
                                      (ioOperations s))))
   / inject_Z (ioWindow s) * 1000)%Q.

(** [allocateBlock(page)]: the block taken (or [None], JS [null]), the
    swap system and the page store after the call. *)
Definition allocateBlock (s : t) (pages : gmap nat Page.t) (pg : nat) (now : Z)
  : option nat * t * gmap nat Page.t :=
  match freeBlocks s with
  | [] => (None, s, pages)             (* console.error('Swap space full!') *)
  | b :: rest =>
      let s1 := mk (blockCount s)
                   (alter (fun blk => DiskBlock.allocate blk pg) b (blocks s))
                   rest (swapInCount s) (S (swapOutCount s))
                   (ioOperations s) (ioWindow s) in
      (Some b, recordIO s1 IOOut now,
       upd_page pages pg (fun p => Page.moveToDisk p b))
  end.

(** [freeBlock(blockId)] *)
Definition freeBlock (s : t) (b : nat) (now : Z) : t :=
  match blocks s !! b with
  | None => s
  | Some _ =>
      let s1 := mk (blockCount s) (alter DiskBlock.free b (blocks s))
                   (freeBlocks s ++ [b]) (S (swapInCount s)) (swapOutCount s)
                   (ioOperations s) (ioWindow s) in
      recordIO s1 IOIn now
  end.

Definition getUsedCount (s : t) : nat :=
  length (filter (fun b => DiskBlock.isOccupied b = true) (blocks s)).

(** [getUtilization()]: [(usedBlocks / this.blockCount) * 100]. *)
Definition getUtilization (s : t) : PrimFloat.float :=
  (Number_of_Z (Z.of_nat (getUsedCount s)) / Number_of_Z (Z.of_nat (blockCount s)) * 100)%float.

(** [reset()] *)
Definition reset (s : t) : t :=
  initialize (mk (blockCount s) (blocks s) (freeBlocks s) 0 0 [] (ioWindow s)).

(** [resize(newBlockCount)] *)
Definition resize (s : t) (newBlockCount : nat) : t :=
  reset (mk newBlockCount (blocks s) (freeBlocks s) (swapInCount s) (swapOutCount s)
            (ioOperations s) (ioWindow s)).
End SwapSystem.

(* ------------------------------------------------------------------ *)
(** ** Replacement policies (src/unnamed/part_003, part_004) *)

(** The victim scan shared by [FIFO.selectVictim] and the fallback of
    [LRU.selectVictim]:
    [let best = ramPages[0]; for (const page of ramPages)
       if (key(page) < key(best)) best = page;] *)
Definition scan_min (key : Page.t -> Z) (ramPages : list Page.t) : option Page.t :=
  match ramPages with
  | [] => None
  | p0 :: _ =>
      Some (fold_left (fun best pg =>
                         if bool_decide (key pg < key best) then pg else best)
                      ramPages p0)
  end.

Module FIFO.
(** [this.queue]: page ids in order of arrival. *)
Definition t := list nat.

Definition new : t := [].

(** [selectVictim(ramPages)] *)
Definition selectVictim (ramPages : list Page.t) : option nat :=
  Page.id <$> scan_min Page.loadTime ramPages.

(** [onPageLoad(page, timestamp)] *)
Definition onPageLoad (q : t) (pages : gmap nat Page.t) (pg : nat) (ts : Z)
  : t * gmap nat Page.t :=
  let pages' := upd_page pages pg (fun p => Page.setLoadTime p ts) in
  if bool_decide (pg ∈ q) then (q, pages') else (q ++ [pg], pages').

(** [onEvict(page)]: splice the id out of the queue. *)
Definition onEvict (q : t) (pg : nat) : t :=
  match list_find (fun x => x = pg) q with
  | Some (i, _) => take i q ++ drop (S i) q
  | None => q
  end.
End FIFO.

Module LRU.
(** An [LRUNode]; the node of page [k] is [nodeMap !! k], so a node
    reference is the id of its page. *)
Record node := mkNode { prev : option nat; next : option nat }.

Record t := mk {
  head : option nat;             (** most recently used *)
  tail : option nat;             (** least recently used *)
  nodeMap : gmap nat node
}.

Definition new : t := mk None None ∅.

Definition get_prev (m : gmap nat node) (k : nat) : option nat := m !! k ≫= prev.
Definition get_next (m : gmap nat node) (k : nat) : option nat := m !! k ≫= next.

(** [if (r) r.next = v] *)
Definition set_next (m : gmap nat node) (r : option nat) (v : option nat)
  : gmap nat node :=
  match r with
  | Some k => alter (fun n => mkNode (prev n) v) k m
  | None => m
  end.

(** [if (r) r.prev = v] *)
Definition set_prev (m : gmap nat node) (r : option nat) (v : option nat)
  : gmap nat node :=
  match r with
  | Some k => alter (fun n => mkNode v (next n)) k m
  | None => m
  end.

(** Body of [moveToFront(page)] once [node] is found (lines 266-282). *)
Definition moveToFront_node (s : t) (pg : nat) : t :=
  if decide (head s = Some pg) then s else
  let m := nodeMap s in
  let m1 := set_next m (get_prev m pg) (get_next m pg) in
  let m2 := set_prev m1 (get_next m1 pg) (get_prev m1 pg) in
  let tl := if decide (tail s = Some pg) then get_prev m2 pg else tail s in
  let m3 := alter (fun _ => mkNode None (head s)) pg m2 in
  let m4 := set_prev m3 (head s) (Some pg) in
  mk (Some pg) tl m4.

(** Body of [addToFront(page)] for a page without a node (lines 241-253). *)
Definition addToFront_fresh (s : t) (pg : nat) : t :=
  let m := <[pg := mkNode None None]> (nodeMap s) in
  match head s with
  | None => mk (Some pg) (Some pg) m
  | Some h =>
      let m1 := alter (fun n => mkNode (prev n) (Some h)) pg m in
      let m2 := set_prev m1 (Some h) (Some pg) in
      mk (Some pg) (tail s) m2
  end.

(** [moveToFront(page)]; its call [addToFront(page)] is made only when
    the node is absent, where [addToFront] takes its fresh branch. *)
Definition moveToFront (s : t) (pg : nat) : t :=
  match nodeMap s !! pg with
  | None => addToFront_fresh s pg
  | Some _ => moveToFront_node s pg
  end.

(** [addToFront(page)] *)
Definition addToFront (s : t) (pg : nat) : t :=
  match nodeMap s !! pg with
  | Some _ => moveToFront s pg
  | None => addToFront_fresh s pg
  end.

(** [onEvict(page)] *)
Definition onEvict (s : t) (pg : nat) : t :=
  match nodeMap s !! pg with
  | None => s
  | Some _ =>
      let m := nodeMap s in
      let m1 := set_next m (get_prev m pg) (get_next m pg) in
      let m2 := set_prev m1 (get_next m1 pg) (get_prev m1 pg) in
      let hd := if decide (head s = Some pg) then get_next m2 pg else head s in
      let tl := if decide (tail s = Some pg) then get_prev m2 pg else tail s in
      mk hd tl (delete pg m2)
  end.

(** [onPageAccess(page, timestamp)]: [super.onPageAccess] (the page's
    [access]) then [moveToFront]. *)
Definition onPageAccess (s : t) (pages : gmap nat Page.t) (pg : nat) (ts : Z)
  : t * gmap nat Page.t :=
  (moveToFront s pg, upd_page pages pg (fun p => Page.access p ts)).

(** [onPageLoad(page, timestamp)] *)
Definition onPageLoad (s : t) (pg : nat) : t := addToFront s pg.

(** [selectVictim(ramPages)]: the tail's page, else the scan on
    [lastAccessTime]. *)
Definition selectVictim (s : t) (ramPages : list Page.t) : option nat :=
  match tail s with
  | Some k => Some k
  | None => Page.id <$> scan_min Page.lastAccessTime ramPages
  end.

(** [getOrder()]: the page ids from head to tail, following [next]
    ([fuel] bounds the walk). *)
Fixpoint walk (m : gmap nat node) (cur : option nat) (fuel : nat) : list nat :=
  match fuel, cur with
  | O, _ | _, None => []
  | S f, Some k => k :: walk m (get_next m k) f
  end.

Definition getOrder (s : t) : list nat :=
  walk (nodeMap s) (head s) (S (size (nodeMap s))).
End LRU.

(** The engine's [this.policy]: a [FIFO] or an [LRU] object. *)
Inductive policy := PFIFO (q : FIFO.t) | PLRU (s : LRU.t).

Definition pol_getName (p : policy) : string :=
  match p with PFIFO _ => "FIFO" | PLRU _ => "LRU" end.

Definition pol_selectVictim (p : policy) (ramPages : list Page.t) : option nat :=
  match p with
  | PFIFO _ => FIFO.selectVictim ramPages
  | PLRU s => LRU.selectVictim s ramPages
  end.

(** [policy.onPageAccess]: FIFO inherits [PolicyInterface.onPageAccess]. *)
Definition pol_onPageAccess (p : policy) (pages : gmap nat Page.t) (pg : nat) (ts : Z)
  : policy * gmap nat Page.t :=
  match p with
  | PFIFO q => (PFIFO q, upd_page pages pg (fun x => Page.access x ts))
  | PLRU s => let '(s', pages') := LRU.onPageAccess s pages pg ts in (PLRU s', pages')
  end.

Definition pol_onPageLoad (p : policy) (pages : gmap nat Page.t) (pg : nat) (ts : Z)
  : policy * gmap nat Page.t :=
  match p with
  | PFIFO q => let '(q', pages') := FIFO.onPageLoad q pages pg ts in (PFIFO q', pages')
  | PLRU s => (PLRU (LRU.onPageLoad s pg), pages)
  end.

Definition pol_onEvict (p : policy) (pg : nat) : policy :=
  match p with
  | PFIFO q => PFIFO (FIFO.onEvict q pg)
  | PLRU s => PLRU (LRU.onEvict s pg)
  end.

Definition pol_reset (p : policy) : policy :=
  match p with
  | PFIFO _ => PFIFO []
  | PLRU _ => PLRU LRU.new
  end.

(* ------------------------------------------------------------------ *)
(** ** Process (src/js/ui/ScenarioSelector.js) *)

Module Process.
(** Only the fields the engine reads or writes; [locality],
    [workingSetSize], colour and icon drive the random workload. *)
Record t := mk {
  id : nat;
  name : string;
  pageCount : nat;
  pages : list nat;
  totalAccesses : nat;
  pageFaults : nat
}.

Definition new (i : nat) (n : string) (c : nat) : t := mk i n c [] 0 0.

(** [createPages(startId)]: ids [startId .. startId+pageCount-1]. *)
Definition createPages (p : t) (start : nat) : t * list Page.t :=
  let ids := seq start (pageCount p) in
  (mk (id p) (name p) (pageCount p) ids (totalAccesses p) (pageFaults p),
   map (fun i => Page.new i (id p)) ids).

Definition recordAccess (p : t) : t :=
  mk (id p) (name p) (pageCount p) (pages p) (S (totalAccesses p)) (pageFaults p).

Definition recordPageFault (p : t) : t :=
  mk (id p) (name p) (pageCount p) (pages p) (totalAccesses p) (S (pageFaults p)).
End Process.

(** [this.processes.find(p => p.id === pid)], then a method call on it. *)
Definition update_process (ps : list Process.t) (pid : nat) (f : Process.t -> Process.t)
  : list Process.t :=
  match list_find (fun p => Process.id p = pid) ps with
  | Some (i, _) => alter f i ps
  | None => ps
  end.

(* ------------------------------------------------------------------ *)
(** ** JavaScript strings

    A JS string is a Rocq [string] holding its UTF-8 encoding, a lone
    surrogate written as the three bytes of its code point (as WTF-8
    does).  The encoding is one-to-one, so equality of JS strings and
    the empty string read the same on both sides, and an ASCII literal
    such as ["FIFO"] is its own encoding. *)

(** A decoded unit: a code point, or a byte that starts no encoding
    (such bytes come from no JS string). *)
Inductive ucode := UCp (c : Z) | UByte (b : ascii).

Definition byte_val (a : ascii) : Z := Z.of_nat (nat_of_ascii a).

(** The six payload bits of a continuation byte [10xxxxxx]. *)
Definition cont_bits (a : ascii) : option Z :=
  let n := byte_val a in
  if (128 <=? n) && (n <? 192) then Some (n - 128) else None.

Fixpoint utf8_decode (x : string) : list ucode :=
  match x with
  | EmptyString => []
  | String a r =>
      let n := byte_val a in
      let stray := UByte a :: utf8_decode r in
      if n <? 128 then UCp n :: utf8_decode r
      else if (192 <=? n) && (n <? 224) then
        match r with
        | String b1 r1 =>
            match cont_bits b1 with
            | Some x1 =>
                let c := (n - 192) * 64 + x1 in
                if 128 <=? c then UCp c :: utf8_decode r1 else stray
            | None => stray
            end
        | EmptyString => stray
        end
      else if (224 <=? n) && (n <? 240) then
        match r with
        | String b1 (String b2 r2) =>
            match cont_bits b1, cont_bits b2 with
            | Some x1, Some x2 =>
                let c := ((n - 224) * 64 + x1) * 64 + x2 in
                if 2048 <=? c then UCp c :: utf8_decode r2 else stray
            | _, _ => stray
            end
        | _ => stray
        end
      else if (240 <=? n) && (n <? 248) then
        match r with
        | String b1 (String b2 (String b3 r3)) =>
            match cont_bits b1, cont_bits b2, cont_bits b3 with
            | Some x1, Some x2, Some x3 =>
                let c := (((n - 240) * 64 + x1) * 64 + x2) * 64 + x3 in
                if (65536 <=? c) && (c <=? 1114111) then UCp c :: utf8_decode r3
                else stray
            | _, _, _ => stray
            end
        | _ => stray
        end
      else stray
  end.

Definition byte_of (z : Z) : ascii := ascii_of_nat (Z.to_nat z).

Definition utf8_encode (c : Z) : string :=
  if c <? 128 then String (byte_of c) EmptyString
  else if c <? 2048 then
    String (byte_of (192 + c / 64)) (String (byte_of (128 + c mod 64)) EmptyString)
  else if c <? 65536 then
    String (byte_of (224 + c / 4096))
      (String (byte_of (128 + (c / 64) mod 64)) (String (byte_of (128 + c mod 64)) EmptyString))
  else
    String (byte_of (240 + c / 262144))
      (String (byte_of (128 + (c / 4096) mod 64))
        (String (byte_of (128 + (c / 64) mod 64)) (String (byte_of (128 + c mod 64)) EmptyString))).

(** The Unicode full upper-case mapping (Unicode 14.0: the simple
    mappings of UnicodeData.txt and the unconditional ones of
    SpecialCasing.txt), which is what [toUpperCase] applies to each code
    point.  [(lo, hi, step, d)]: every code point [lo], [lo + step], ...
    up to [hi] upper-cases to itself plus [d]. *)
Definition upper_runs : list (Z * Z * Z * Z) := [
  (97, 122, 1, (-32)); (181, 181, 1, 743); (224, 246, 1, (-32)); (248, 254, 1, (-32));
  (255, 255, 1, 121); (257, 303, 2, (-1)); (305, 305, 1, (-232)); (307, 311, 2, (-1));
  (314, 328, 2, (-1)); (331, 375, 2, (-1)); (378, 382, 2, (-1)); (383, 383, 1, (-300));
  (384, 384, 1, 195); (387, 389, 2, (-1)); (392, 392, 1, (-1)); (396, 396, 1, (-1));
  (402, 402, 1, (-1)); (405, 405, 1, 97); (409, 409, 1, (-1)); (410, 410, 1, 163);
  (414, 414, 1, 130); (417, 421, 2, (-1)); (424, 424, 1, (-1)); (429, 429, 1, (-1));
  (432, 432, 1, (-1)); (436, 438, 2, (-1)); (441, 441, 1, (-1)); (445, 445, 1, (-1));
  (447, 447, 1, 56); (453, 453, 1, (-1)); (454, 454, 1, (-2)); (456, 456, 1, (-1));
  (457, 457, 1, (-2)); (459, 459, 1, (-1)); (460, 460, 1, (-2)); (462, 476, 2, (-1));
  (477, 477, 1, (-79)); (479, 495, 2, (-1)); (498, 498, 1, (-1)); (499, 499, 1, (-2));
  (501, 501, 1, (-1)); (505, 543, 2, (-1)); (547, 563, 2, (-1)); (572, 572, 1, (-1));
  (575, 576, 1, 10815); (578, 578, 1, (-1)); (583, 591, 2, (-1)); (592, 592, 1, 10783);
  (593, 593, 1, 10780); (594, 594, 1, 10782); (595, 595, 1, (-210)); (596, 596, 1, (-206));
  (598, 599, 1, (-205)); (601, 601, 1, (-202)); (603, 603, 1, (-203)); (604, 604, 1, 42319);
  (608, 608, 1, (-205)); (609, 609, 1, 42315); (611, 611, 1, (-207)); (613, 613, 1, 42280);
  (614, 614, 1, 42308); (616, 616, 1, (-209)); (617, 617, 1, (-211)); (618, 618, 1, 42308);
  (619, 619, 1, 10743); (620, 620, 1, 42305); (623, 623, 1, (-211)); (625, 625, 1, 10749);
  (626, 626, 1, (-213)); (629, 629, 1, (-214)); (637, 637, 1, 10727); (640, 640, 1, (-218));
  (642, 642, 1, 42307); (643, 643, 1, (-218)); (647, 647, 1, 42282); (648, 648, 1, (-218));
  (649, 649, 1, (-69)); (650, 651, 1, (-217)); (652, 652, 1, (-71)); (658, 658, 1, (-219));
  (669, 669, 1, 42261); (670, 670, 1, 42258); (837, 837, 1, 84); (881, 883, 2, (-1));
  (887, 887, 1, (-1)); (891, 893, 1, 130); (940, 940, 1, (-38)); (941, 943, 1, (-37));
  (945, 961, 1, (-32)); (962, 962, 1, (-31)); (963, 971, 1, (-32)); (972, 972, 1, (-64));
  (973, 974, 1, (-63)); (976, 976, 1, (-62)); (977, 977, 1, (-57)); (981, 981, 1, (-47));
  (982, 982, 1, (-54)); (983, 983, 1, (-8)); (985, 1007, 2, (-1)); (1008, 1008, 1, (-86));
  (1009, 1009, 1, (-80)); (1010, 1010, 1, 7); (1011, 1011, 1, (-116)); (1013, 1013, 1, (-96));
  (1016, 1016, 1, (-1)); (1019, 1019, 1, (-1)); (1072, 1103, 1, (-32)); (1104, 1119, 1, (-80));
  (1121, 1153, 2, (-1)); (1163, 1215, 2, (-1)); (1218, 1230, 2, (-1)); (1231, 1231, 1, (-15));
  (1233, 1327, 2, (-1)); (1377, 1414, 1, (-48)); (4304, 4346, 1, 3008); (4349, 4351, 1, 3008);
  (5112, 5117, 1, (-8)); (7296, 7296, 1, (-6254)); (7297, 7297, 1, (-6253)); (7298, 7298, 1, (-6244));
  (7299, 7300, 1, (-6242)); (7301, 7301, 1, (-6243)); (7302, 7302, 1, (-6236)); (7303, 7303, 1, (-6181));
  (7304, 7304, 1, 35266); (7545, 7545, 1, 35332); (7549, 7549, 1, 3814); (7566, 7566, 1, 35384);
  (7681, 7829, 2, (-1)); (7835, 7835, 1, (-59)); (7841, 7935, 2, (-1)); (7936, 7943, 1, 8);
  (7952, 7957, 1, 8); (7968, 7975, 1, 8); (7984, 7991, 1, 8); (8000, 8005, 1, 8);
  (8017, 8023, 2, 8); (8032, 8039, 1, 8); (8048, 8049, 1, 74); (8050, 8053, 1, 86);
  (8054, 8055, 1, 100); (8056, 8057, 1, 128); (8058, 8059, 1, 112); (8060, 8061, 1, 126);
  (8112, 8113, 1, 8); (8126, 8126, 1, (-7205)); (8144, 8145, 1, 8); (8160, 8161, 1, 8);
  (8165, 8165, 1, 7); (8526, 8526, 1, (-28)); (8560, 8575, 1, (-16)); (8580, 8580, 1, (-1));
  (9424, 9449, 1, (-26)); (11312, 11359, 1, (-48)); (11361, 11361, 1, (-1)); (11365, 11365, 1, (-10795));
  (11366, 11366, 1, (-10792)); (11368, 11372, 2, (-1)); (11379, 11379, 1, (-1)); (11382, 11382, 1, (-1));
  (11393, 11491, 2, (-1)); (11500, 11502, 2, (-1)); (11507, 11507, 1, (-1)); (11520, 11557, 1, (-7264));
  (11559, 11559, 1, (-7264)); (11565, 11565, 1, (-7264)); (42561, 42605, 2, (-1)); (42625, 42651, 2, (-1));
  (42787, 42799, 2, (-1)); (42803, 42863, 2, (-1)); (42874, 42876, 2, (-1)); (42879, 42887, 2, (-1));
  (42892, 42892, 1, (-1)); (42897, 42899, 2, (-1)); (42900, 42900, 1, 48); (42903, 42921, 2, (-1));
  (42933, 42947, 2, (-1)); (42952, 42954, 2, (-1)); (42961, 42961, 1, (-1)); (42967, 42969, 2, (-1));
  (42998, 42998, 1, (-1)); (43859, 43859, 1, (-928)); (43888, 43967, 1, (-38864)); (65345, 65370, 1, (-32));
  (66600, 66639, 1, (-40)); (66776, 66811, 1, (-40)); (66967, 66977, 1, (-39)); (66979, 66993, 1, (-39));
  (66995, 67001, 1, (-39)); (67003, 67004, 1, (-39)); (68800, 68850, 1, (-64)); (71872, 71903, 1, (-32));
  (93792, 93823, 1, (-32)); (125218, 125251, 1, (-34))
].

Definition upper_special : list (Z * list Z) := [
  (223, [83; 83]); (329, [700; 78]); (496, [74; 780]); (912, [921; 776; 769]);
  (944, [933; 776; 769]); (1415, [1333; 1362]); (7830, [72; 817]); (7831, [84; 776]);
  (7832, [87; 778]); (7833, [89; 778]); (7834, [65; 702]); (8016, [933; 787]);
  (8018, [933; 787; 768]); (8020, [933; 787; 769]); (8022, [933; 787; 834]); (8064, [7944; 921]);
  (8065, [7945; 921]); (8066, [7946; 921]); (8067, [7947; 921]); (8068, [7948; 921]);
  (8069, [7949; 921]); (8070, [7950; 921]); (8071, [7951; 921]); (8072, [7944; 921]);
  (8073, [7945; 921]); (8074, [7946; 921]); (8075, [7947; 921]); (8076, [7948; 921]);
  (8077, [7949; 921]); (8078, [7950; 921]); (8079, [7951; 921]); (8080, [7976; 921]);
  (8081, [7977; 921]); (8082, [7978; 921]); (8083, [7979; 921]); (8084, [7980; 921]);
  (8085, [7981; 921]); (8086, [7982; 921]); (8087, [7983; 921]); (8088, [7976; 921]);
  (8089, [7977; 921]); (8090, [7978; 921]); (8091, [7979; 921]); (8092, [7980; 921]);
  (8093, [7981; 921]); (8094, [7982; 921]); (8095, [7983; 921]); (8096, [8040; 921]);
  (8097, [8041; 921]); (8098, [8042; 921]); (8099, [8043; 921]); (8100, [8044; 921]);
  (8101, [8045; 921]); (8102, [8046; 921]); (8103, [8047; 921]); (8104, [8040; 921]);
  (8105, [8041; 921]); (8106, [8042; 921]); (8107, [8043; 921]); (8108, [8044; 921]);
  (8109, [8045; 921]); (8110, [8046; 921]); (8111, [8047; 921]); (8114, [8122; 921]);
  (8115, [913; 921]); (8116, [902; 921]); (8118, [913; 834]); (8119, [913; 834; 921]);
  (8124, [913; 921]); (8130, [8138; 921]); (8131, [919; 921]); (8132, [905; 921]);
  (8134, [919; 834]); (8135, [919; 834; 921]); (8140, [919; 921]); (8146, [921; 776; 768]);
  (8147, [921; 776; 769]); (8150, [921; 834]); (8151, [921; 776; 834]); (8162, [933; 776; 768]);
  (8163, [933; 776; 769]); (8164, [929; 787]); (8166, [933; 834]); (8167, [933; 776; 834]);
  (8178, [8186; 921]); (8179, [937; 921]); (8180, [911; 921]); (8182, [937; 834]);
  (8183, [937; 834; 921]); (8188, [937; 921]); (64256, [70; 70]); (64257, [70; 73]);
  (64258, [70; 76]); (64259, [70; 70; 73]); (64260, [70; 70; 76]); (64261, [83; 84]);
  (64262, [83; 84]); (64275, [1348; 1350]); (64276, [1348; 1333]); (64277, [1348; 1339]);
  (64278, [1358; 1350]); (64279, [1348; 1341])
].

(** The upper-case of one code point; a code point in no entry is its
    own upper-case. *)
Definition upper_cp (c : Z) : list Z :=
  match List.find (fun e => e.1 =? c) upper_special with
  | Some (_, u) => u
  | None =>
      match List.find (fun '(lo, hi, step, _) =>
                         (lo <=? c) && (c <=? hi) && ((c - lo) mod step =? 0)) upper_runs with
      | Some (_, _, _, d) => [c + d]
      | None => [c]
      end
  end.

(* ------------------------------------------------------------------ *)
(** ** SimulationEngine (src/js/simulation/SimulationEngine.js) *)

(** The callbacks of [this.callbacks], as emitted events. *)
Inductive event :=
  | EvPageAllocated (page frame : nat)
  | EvPageEvicted (page : nat) (frame : option nat)
  | EvPageSwappedIn (page : nat)
  | EvPageSwappedOut (page : nat) (block : option nat)
  | EvPageAccessedHit (page : nat)
  | EvPageFault (page : nat)
  | EvThrashingChange (b : bool)
  | EvStatsUpdate
  | EvProcessAdded (process : nat)
  | EvSimulationStep.

Module Engine.
Record config := mkConfig {
  ramFrames : nat;
  swapBlocks : nat;
  pageSize : nat;
  accessInterval : Z;
  policyName : string
}.

(** An argument of [updateConfig]: a JS object whose keys may be absent. *)
Record newConfig := mkNewConfig {
  nc_ramFrames : option nat;
  nc_swapBlocks : option nat;
  nc_pageSize : option nat;
  nc_accessInterval : option Z;
  nc_policy : option string
}.

Record stats := mkStats {
  totalPageFaults : nat;
  pageFaultsThisSecond : nat;
  pageFaultTimes : list Z;
  swapInCount : nat;
  swapOutCount : nat;
  memoryAccesses : nat;
  hitCount : nat
}.

Definition stats0 : stats := mkStats 0 0 [] 0 0 0 0.

Record t := mk {
  cfg : config;
  frames : list Frame.t;
  freeFrames : list nat;         (** the free [Frame]s, by id *)
  swapSystem : SwapSystem.t;
  policy : policy;
  processes : list Process.t;
  allPages : gmap nat Page.t;
  pageIdCounter : nat;
  isRunning : bool;
  isPaused : bool;
  simulationTime : Z;
  st : stats;
  thrashingThreshold : Q;
  isThrashing : bool
}.

(** Field writes [this.x = v]. *)
Definition set_cfg s v := mk v (frames s) (freeFrames s) (swapSystem s) (policy s)
  (processes s) (allPages s) (pageIdCounter s) (isRunning s) (isPaused s)
  (simulationTime s) (st s) (thrashingThreshold s) (isThrashing s).
Definition set_frames s v := mk (cfg s) v (freeFrames s) (swapSystem s) (policy s)
  (processes s) (allPages s) (pageIdCounter s) (isRunning s) (isPaused s)
  (simulationTime s) (st s) (thrashingThreshold s) (isThrashing s).
Definition set_freeFrames s v := mk (cfg s) (frames s) v (swapSystem s) (policy s)
  (processes s) (allPages s) (pageIdCounter s) (isRunning s) (isPaused s)
  (simulationTime s) (st s) (thrashingThreshold s) (isThrashing s).
Definition set_swapSystem s v := mk (cfg s) (frames s) (freeFrames s) v (policy s)
  (processes s) (allPages s) (pageIdCounter s) (isRunning s) (isPaused s)
  (simulationTime s) (st s) (thrashingThreshold s) (isThrashing s).
Definition set_policy s v := mk (cfg s) (frames s) (freeFrames s) (swapSystem s) v
  (processes s) (allPages s) (pageIdCounter s) (isRunning s) (isPaused s)
  (simulationTime s) (st s) (thrashingThreshold s) (isThrashing s).
Definition set_processes s v := mk (cfg s) (frames s) (freeFrames s) (swapSystem s)
  (policy s) v (allPages s) (pageIdCounter s) (isRunning s) (isPaused s)
  (simulationTime s) (st s) (thrashingThreshold s) (isThrashing s).
Definition set_allPages s v := mk (cfg s) (frames s) (freeFrames s) (swapSystem s)
  (policy s) (processes s) v (pageIdCounter s) (isRunning s) (isPaused s)
  (simulationTime s) (st s) (thrashingThreshold s) (isThrashing s).
Definition set_pageIdCounter s v := mk (cfg s) (frames s) (freeFrames s)
  (swapSystem s) (policy s) (processes s) (allPages s) v (isRunning s) (isPaused s)
  (simulationTime s) (st s) (thrashingThreshold s) (isThrashing s).
Definition set_running s r p := mk (cfg s) (frames s) (freeFrames s)
  (swapSystem s) (policy s) (processes s) (allPages s) (pageIdCounter s) r p
  (simulationTime s) (st s) (thrashingThreshold s) (isThrashing s).
Definition set_simulationTime s v := mk (cfg s) (frames s) (freeFrames s)
  (swapSystem s) (policy s) (processes s) (allPages s) (pageIdCounter s)
  (isRunning s) (isPaused s) v (st s) (thrashingThreshold s) (isThrashing s).
Definition set_st s v := mk (cfg s) (frames s) (freeFrames s)
  (swapSystem s) (policy s) (processes s) (allPages s) (pageIdCounter s)
  (isRunning s) (isPaused s) (simulationTime s) v (thrashingThreshold s) (isThrashing s).
Definition set_isThrashing s v := mk (cfg s) (frames s) (freeFrames s)
  (swapSystem s) (policy s) (processes s) (allPages s) (pageIdCounter s)
  (isRunning s) (isPaused s) (simulationTime s) (st s) (thrashingThreshold s) v.

(** Counter updates on [this.stats]. *)
Definition st_access (x : stats) := mkStats (totalPageFaults x) (pageFaultsThisSecond x)
  (pageFaultTimes x) (swapInCount x) (swapOutCount x) (S (memoryAccesses x)) (hitCount x).
Definition st_hit (x : stats) := mkStats (totalPageFaults x) (pageFaultsThisSecond x)
  (pageFaultTimes x) (swapInCount x) (swapOutCount x) (memoryAccesses x) (S (hitCount x)).
Definition st_swapIn (x : stats) := mkStats (totalPageFaults x) (pageFaultsThisSecond x)
  (pageFaultTimes x) (S (swapInCount x)) (swapOutCount x) (memoryAccesses x) (hitCount x).
Definition st_swapOut (x : stats) := mkStats (totalPageFaults x) (pageFaultsThisSecond x)
  (pageFaultTimes x) (swapInCount x) (S (swapOutCount x)) (memoryAccesses x) (hitCount x).
(** Lines 234-242 of [handlePageFault]. *)
Definition st_fault (x : stats) (now : Z) :=
  let times := filter (fun t => now - t < 1000) (pageFaultTimes x ++ [now]) in
  mkStats (S (totalPageFaults x)) (length times) times
          (swapInCount x) (swapOutCount x) (memoryAccesses x) (hitCount x).

(** Engine operations: state passing with the emitted callbacks. *)
Definition M (A : Type) : Type := t -> A * t * list event.

#[global] Instance M_ret : MRet M := fun A x s => (x, s, []).
#[global] Instance M_bind : MBind M := fun A B f c s =>
  let '(a, s1, e1) := c s in
  let '(b, s2, e2) := f a s1 in (b, s2, e1 ++ e2).

Definition get : M t := fun s => (s, s, []).
Definition modify (f : t -> t) : M unit := fun s => (tt, f s, []).
Definition emit (e : event) : M unit := fun s => (tt, s, [e]).

Definition run {A} (c : M A) (s : t) : t := (c s).1.2.
Definition events {A} (c : M A) (s : t) : list event := (c s).2.

Local Open Scope string_scope.

(** [String.prototype.toUpperCase]: the code points of the string,
    each replaced by its full upper-case mapping; a lone surrogate maps
    to itself. *)
Definition toUpperCase (x : string) : string :=
  fold_right (fun u acc =>
                match u with
                | UCp c => fold_right (fun c' a => append (utf8_encode c') a) acc (upper_cp c)
                | UByte b => String b acc
                end) EmptyString (utf8_decode x).

Definition set_cfg_policy (c : config) (n : string) : config :=
  mkConfig (ramFrames c) (swapBlocks c) (pageSize c) (accessInterval c) n.

(** [setPolicy(policyName)] *)
Definition setPolicy (name : string) : M unit :=
  modify (fun s =>
    let p := if decide (toUpperCase name = "FIFO") then PFIFO FIFO.new
             else PLRU LRU.new in
    set_cfg (set_policy s p) (set_cfg_policy (cfg s) name)).

(** [initializeFrames()] *)
Definition initializeFrames : M unit :=
  modify (fun s =>
    let n := ramFrames (cfg s) in
    set_freeFrames (set_frames s (map Frame.new (seq 0 n))) (seq 0 n)).

Definition default_config : config := mkConfig 32 64 4 300 "LRU".

(** [new SimulationEngine()]: the field initialisers, then
    [initialize()]. *)
Definition constructor : t :=
  let s0 := mk default_config [] [] (SwapSystem.new 0) (PLRU LRU.new) [] ∅ 0
               false false 0 stats0 5 false in
  run (initializeFrames ;;
       modify (fun s => set_swapSystem s (SwapSystem.new (swapBlocks (cfg s)))) ;;
       s ← get; setPolicy (policyName (cfg s))) s0.

(** [allocatePageToFrame(page)] *)
Definition allocatePageToFrame (pg : nat) : M bool :=
  s ← get;
  match freeFrames s with
  | [] => mret false
  | f :: rest =>
      let ts := simulationTime s in
      let pages1 := upd_page (allPages s) pg (fun p => Page.moveToRAM p f ts) in
      let '(pol, pages2) := pol_onPageLoad (policy s) pages1 pg ts in
      modify (fun s =>
        set_policy (set_allPages (set_freeFrames
          (set_frames s (alter (fun fr => Frame.allocate fr pg) f (frames s)))
          rest) pages2) pol) ;;
      emit (EvPageAllocated pg f) ;;
      mret true
  end.

(** [allocateBlock(page)] on [this.swapSystem]. *)
Definition swapAllocate (pg : nat) (now : Z) : M (option nat) :=
  s ← get;
  let '(b, sw, pages) := SwapSystem.allocateBlock (swapSystem s) (allPages s) pg now in
  modify (fun s => set_allPages (set_swapSystem s sw) pages) ;;
  mret b.

(** [allocateInitialPages(process)] *)
Fixpoint allocateInitialPages (pgs : list nat) (now : Z) : M unit :=
  match pgs with
  | [] => mret tt
  | pg :: rest =>
      s ← get;
      (match freeFrames s with
       | _ :: _ => allocatePageToFrame pg ;; mret tt
       | [] => b ← swapAllocate pg now;
               match b with
               | Some blk => emit (EvPageSwappedOut pg (Some blk))
               | None => mret tt
               end
       end) ;;
      allocateInitialPages rest now
  end.

(** [addProcess(name, pageCount)]; returns the new process id. *)
Definition addProcess (name : string) (pageCount : nat) (now : Z) : M nat :=
  s ← get;
  let pid := length (processes s) in
  let '(proc, pgs) := Process.createPages (Process.new pid name pageCount)
                                          (pageIdCounter s) in
  modify (fun s =>
    let s1 := set_pageIdCounter s (pageIdCounter s + pageCount)%nat in
    let s2 := set_allPages s1
                (foldl (fun m p => <[Page.id p := p]> m) (allPages s1) pgs) in
    set_processes s2 (processes s2 ++ [proc])) ;;
  allocateInitialPages (Process.pages proc) now ;;
  emit (EvProcessAdded pid) ;;
  mret pid.

(** [checkThrashing()] *)
Definition checkThrashing (now : Z) : M unit :=
  s ← get;
  let ioRate := SwapSystem.getIORate (swapSystem s) now in
  let was := isThrashing s in
  let b := Qle_bool (thrashingThreshold s) ioRate in
  modify (fun s => set_isThrashing s b) ;;
  if Bool.eqb was b then mret tt else emit (EvThrashingChange b).

(** The pages held by frames, in frame order ([ramPages] of
    [evictPage]). *)
Definition ramPages (s : t) : list Page.t :=
  omap (fun f => Frame.page f ≫= fun k => allPages s !! k) (frames s).

(** [evictPage()] *)
Definition evictPage (now : Z) : M unit :=
  s ← get;
  match pol_selectVictim (policy s) (ramPages s) with
  | None => mret tt
  | Some v =>
      (* const frame = this.frames[victim.frameId] *)
      let fr := match allPages s !! v ≫= Page.frameId with
                | Some i => match frames s !! i with Some _ => Some i | None => None end
                | None => None
                end in
      (match fr with
       | Some i => modify (fun s =>
                     set_freeFrames (set_frames s (alter Frame.free i (frames s)))
                                    (freeFrames s ++ [i]))
       | None => mret tt
       end) ;;
      emit (EvPageEvicted v fr) ;;
      modify (fun s => set_policy s (pol_onEvict (policy s) v)) ;;
      b ← swapAllocate v now;
      modify (fun s => set_st s (st_swapOut (st s))) ;;
      emit (EvPageSwappedOut v b)
  end.

(** [handlePageFault(page)] *)
Definition handlePageFault (pg : nat) (now : Z) : M unit :=
  modify (fun s => set_st s (st_fault (st s) now)) ;;
  s ← get;
  let pr := default 0%nat (Page.processId <$> allPages s !! pg) in
  modify (fun s => set_processes s
            (update_process (processes s) pr Process.recordPageFault)) ;;
  emit (EvPageFault pg) ;;
  s ← get;
  (match freeFrames s with [] => evictPage now | _ => mret tt end) ;;
  s ← get;
  (match allPages s !! pg with
   | Some p =>
       match Page.location p, Page.diskBlockId p with
       | LDisk, Some b =>
           modify (fun s => set_st (set_swapSystem s
                     (SwapSystem.freeBlock (swapSystem s) b now)) (st_swapIn (st s))) ;;
           emit (EvPageSwappedIn pg)
       | _, _ => mret tt
       end
   | None => mret tt
   end) ;;
  allocatePageToFrame pg ;;
  checkThrashing now.

(** [accessPage(page)]; [None] is a [null]/[undefined] page.  A page
    id outside [allPages] is not a page of this engine and is taken
    as absent. *)
Definition accessPage (page : option nat) (now : Z) : M unit :=
  match page with
  | None => mret tt
  | Some pg =>
      s ← get;
      match allPages s !! pg with
      | None => mret tt
      | Some p =>
          modify (fun s => set_st s (st_access (st s))) ;;
          modify (fun s => set_processes s
                    (update_process (processes s) (Page.processId p)
                                    Process.recordAccess)) ;;
          if decide (Page.location p = LRam) then
            modify (fun s => set_st s (st_hit (st s))) ;;
            s ← get;
            let '(pol, pages) := pol_onPageAccess (policy s) (allPages s) pg
                                                  (simulationTime s) in
            modify (fun s => set_allPages (set_policy s pol) pages) ;;
            emit (EvPageAccessedHit pg)
          else handlePageFault pg now
      end
  end.

(** [step()]: the batch produced by [workloadGenerator.generateBatch(1)]
    (random) is the argument [accesses]. *)
Definition step (accesses : list (option nat)) (now : Z) : M unit :=
  foldr (fun a k => accessPage a now ;; k) (mret tt) accesses ;;
  modify (fun s => set_simulationTime s
            (simulationTime s + accessInterval (cfg s))) ;;
  checkThrashing now ;;
  emit EvSimulationStep ;;
  emit EvStatsUpdate.

(** [reset()] (with [pause()] first). *)
Definition reset : M unit :=
  modify (fun s => set_running s (isRunning s) true) ;;
  modify (fun s =>
    let s1 := set_pageIdCounter (set_allPages (set_processes s []) ∅) 0 in
    let s2 := set_isThrashing (set_simulationTime (set_running s1 false false) 0) false in
    set_st s2 stats0) ;;
  initializeFrames ;;
  modify (fun s => set_policy (set_swapSystem s (SwapSystem.reset (swapSystem s)))
                              (pol_reset (policy s))).

(** [Object.assign(this.config, newConfig)] *)
Definition assign (c : config) (n : newConfig) : config :=
  mkConfig (default (ramFrames c) (nc_ramFrames n))
           (default (swapBlocks c) (nc_swapBlocks n))
           (default (pageSize c) (nc_pageSize n))
           (default (accessInterval c) (nc_accessInterval n))
           (default (policyName c) (nc_policy n)).

(** [updateConfig(newConfig)]; an absent key is [undefined], which is
    [!==] every number, and an empty policy string is falsy. *)
Definition updateConfig (n : newConfig) : M unit :=
  s ← get;
  let needsReinit := negb (bool_decide (nc_ramFrames n = Some (ramFrames (cfg s))))
                     || negb (bool_decide (nc_swapBlocks n = Some (swapBlocks (cfg s)))) in
  modify (fun s => set_cfg s (assign (cfg s) n)) ;;
  (if needsReinit then reset else mret tt) ;;
  match nc_policy n with
  | Some name => if decide (name = "") then mret tt else setPolicy name
  | None => mret tt
  end.
End Engine.

(* ------------------------------------------------------------------ *)
(** ** The stats snapshot ([SimulationEngine.getStats]) *)

(** The JS values a snapshot field can hold here: a number or a string. *)
Inductive jsval := JNum (x : PrimFloat.float) | JStr (x : string).

(** Decimal digits of a natural number. *)
Fixpoint digits (fuel n : nat) (acc : string) : string :=
  match fuel with
  | O => acc
  | S f =>
      let acc' := String (ascii_of_nat (48 + n mod 10)) acc in
      if (n <? 10)%nat then acc' else digits f (n / 10) acc'
  end.

Definition string_of_nat (n : nat) : string := digits (S n) n EmptyString.

(** [Number.prototype.toFixed(1)] on a non-negative finite number below
    [10^21], given by its exact value [x]: the integer [n] with
    [n/10 - x] closest to zero (the larger one on a tie), written with
    one decimal. *)
Definition toFixed1_tenths (x : Q) : Z := Qfloor (x * 10 + (1 # 2))%Q.

Definition toFixed1 (x : Q) : string :=
  let n := Z.to_nat (toFixed1_tenths x) in
  append (string_of_nat (n / 10))
         (String "."%char (string_of_nat (n mod 10))).

Module Stats.
Record snapshot := mk {
  totalPageFaults : nat;
  pageFaultsPerSecond : nat;
  swapInCount : nat;
  swapOutCount : nat;
  diskIORate : PrimFloat.float;
  ramUsed : nat;
  ramTotal : nat;
  ramUtilization : PrimFloat.float;
  swapUsed : nat;
  swapTotal : nat;
  swapUtilization : PrimFloat.float;
  memoryAccesses : nat;
  hitCount : nat;
  hitRatio : jsval;
  isThrashing : bool;
  thrashingLevel : PrimFloat.float;
  simulationTime : Z;
  currentPolicy : string
}.
End Stats.

Definition Qnat (n : nat) : Q := inject_Z (Z.of_nat n).

(** [getStats()] at time [now] (the swap system's [getIORate] reads the
    clock).  The counters are below [2^53], so [hitCount /
    memoryAccesses * 100] is a finite double below [10^21], the range
    where [toFixed(1)] prints its digits. *)
Definition getStats (s : Engine.t) (now : Z) : Stats.snapshot :=
  let ramUsage := length (filter (fun f => Frame.isOccupied f = true) (Engine.frames s)) in
  let ramUtilization :=
    (Number_of_Z (Z.of_nat ramUsage) / Number_of_Z (Z.of_nat (Engine.ramFrames (Engine.cfg s)))
     * 100)%float in
  let sw := Engine.swapSystem s in
  let ioRate := SwapSystem.getIORate_f64 sw now in
  let x := Engine.st s in
  Stats.mk (Engine.totalPageFaults x) (Engine.pageFaultsThisSecond x)
    (Engine.swapInCount x) (Engine.swapOutCount x) ioRate
    ramUsage (Engine.ramFrames (Engine.cfg s)) ramUtilization
    (SwapSystem.getUsedCount sw) (SwapSystem.blockCount sw)
    (SwapSystem.getUtilization sw)
    (Engine.memoryAccesses x) (Engine.hitCount x)
    (if (0 <? Engine.memoryAccesses x)%nat
     then JStr (toFixed1 (Q_of_float
                 (Number_of_Z (Z.of_nat (Engine.hitCount x))
                  / Number_of_Z (Z.of_nat (Engine.memoryAccesses x)) * 100)%float))
     else JNum 0%float)
    (Engine.isThrashing s)
    (Math_min 100%float (ioRate / Number_of_Q (Engine.thrashingThreshold s) * 100)%float)
    (Engine.simulationTime s)
    (pol_getName (Engine.policy s)).

(* ------------------------------------------------------------------ *)
(** ** The calls the engine makes on an LRU policy

    [allocatePageToFrame] does [page.moveToRAM(frame, time)] and then
    [policy.onPageLoad(page, time)]; a hit does
    [policy.onPageAccess(page, time)]; [evictPage] does
    [policy.onEvict(victim)].  A run of such calls is accepted when it
    keeps the contract of the policy interface: a page is loaded only
    when it is not resident, accessed or evicted only when it is
    resident, and the clock ([simulationTime]) never goes back. *)

Module LRUTrace.
Inductive op :=
  | Load (pg frame : nat) (time : Z)
  | Access (pg : nat) (time : Z)
  | Evict (pg : nat).

Record world := mkW {
  pages : gmap nat Page.t;
  lru : LRU.t;
  resident : gset nat;
  clock : Z
}.

Definition step (w : world) (o : op) : option world :=
  match o with
  | Load pg f t =>
      if bool_decide ((pg ∉ resident w) ∧ clock w ≤ t ∧ is_Some (pages w !! pg))
      then Some (mkW (upd_page (pages w) pg (fun p => Page.moveToRAM p f t))
                     (LRU.onPageLoad (lru w) pg) ({[pg]} ∪ resident w) t)
      else None
  | Access pg t =>
      if bool_decide (pg ∈ resident w ∧ clock w ≤ t)
      then let '(l, ps) := LRU.onPageAccess (lru w) (pages w) pg t in
           Some (mkW ps l (resident w) t)
      else None
  | Evict pg =>
      if bool_decide (pg ∈ resident w)
      then Some (mkW (pages w) (LRU.onEvict (lru w) pg) (resident w ∖ {[pg]}) (clock w))
      else None
  end.

Fixpoint run (w : world) (tr : list op) : option world :=
  match tr with
  | [] => Some w
  | o :: rest => w' ← step w o; run w' rest
  end.

(** A fresh [LRU] policy next to an arbitrary set of pages. *)
Definition start (ps : gmap nat Page.t) (t0 : Z) : world := mkW ps LRU.new ∅ t0.

Definition lat (ps : gmap nat Page.t) (k : nat) : Z :=
  default 0 (Page.lastAccessTime <$> ps !! k).
End LRUTrace.

(* ------------------------------------------------------------------ *)
(** ** Successive thrashing checks *)

(** [checkThrashing()] called at the given moments; before each call the
    swap system may have been changed by any I/O, so each call is given
    the swap system it reads. *)
Fixpoint check_seq (xs : list (SwapSystem.t * Z)) : Engine.M unit :=
  match xs with
  | [] => mret tt
  | (sw, now) :: rest =>
      Engine.modify (fun s => Engine.set_swapSystem s sw) ;;
      Engine.checkThrashing now ;;
      check_seq rest
  end.

(** The notifications the spec asks for: one per change of
    [ioRate >= threshold] between successive checks. *)
Fixpoint thrashing_transitions (thr : Q) (prev : bool) (rates : list Q) : list event :=
  match rates with
  | [] => []
  | r :: rest =>
      let b := Qle_bool thr r in
      (if Bool.eqb prev b then [] else [EvThrashingChange b])
        ++ thrashing_transitions thr b rest
  end.

(* ------------------------------------------------------------------ *)
(** ** Swap I/O events *)

(** [recordIO] calls (made by [allocateBlock] and [freeBlock]) at the
    given times. *)
Definition record_all (s : SwapSystem.t) (evs : list (io_type * Z)) : SwapSystem.t :=
  foldl (fun s e => SwapSystem.recordIO s e.1 e.2) s evs.

(** Five swap operations at 0, 1, 2, 3 and 4 ms. *)
Definition io_events0 : list (io_type * Z) :=
  [(IOOut, 0); (IOOut, 1); (IOIn, 2); (IOOut, 3); (IOIn, 4)].

(** 1001 swap-outs in the same millisecond (a synchronous loop of
    faulting accesses reads one [Date.now()]). *)
Definition io_burst : list (io_type * Z) := repeat (IOOut, 0) 1001.

(* ------------------------------------------------------------------ *)
(** ** Page / frame / block consistency *)

(** Each page's location agrees with the frame or block that holds it,
    and each occupied frame holds a page that is resident there. *)
Definition page_consistent (s : Engine.t) (k : nat) (p : Page.t) : bool :=
  match Page.location p with
  | LRam =>
      match Page.frameId p with
      | Some f => bool_decide ((Engine.frames s !! f) ≫= Frame.page = Some k)
                  && bool_decide (Page.diskBlockId p = None)
      | None => false
      end
  | LDisk =>
      match Page.diskBlockId p with
      | Some b => bool_decide ((SwapSystem.blocks (Engine.swapSystem s) !! b)
                                 ≫= DiskBlock.page = Some k)
                  && bool_decide (Page.frameId p = None)
      | None => false
      end
  | LNone => bool_decide (Page.frameId p = None ∧ Page.diskBlockId p = None)
  end.

Definition frame_consistent (s : Engine.t) (fr : Frame.t) : bool :=
  match Frame.page fr with
  | None => true
  | Some k =>
      match Engine.allPages s !! k with
      | Some p => bool_decide (Page.location p = LRam ∧ Page.frameId p = Some (Frame.id fr))
      | None => false
      end
  end.

Definition consistent (s : Engine.t) : bool :=
  forallb (fun kp => page_consistent s kp.1 kp.2) (map_to_list (Engine.allPages s))
  && forallb (frame_consistent s) (Engine.frames s).

(* ------------------------------------------------------------------ *)
(** ** Concrete runs *)

Local Open Scope string_scope.

(** Default engine (32 frames, 64 swap blocks, LRU) with one process of
    100 pages: pages 0-31 fill RAM, 32-95 fill swap, 96-99 are left
    unmapped. *)
Definition full_engine : Engine.t :=
  Engine.run (Engine.addProcess "P" 100 0) Engine.constructor.

(** The access of page 96: a fault that needs an eviction while the
    swap pool is full. *)
Definition after_exhausted_access : Engine.t :=
  Engine.run (Engine.accessPage (Some 96%nat) 0) full_engine.

(** One process of 33 pages (32 resident, one swapped), then a hit on
    page 0 and a fault on page 32. *)
Definition hit_then_fault : Engine.t :=
  Engine.run (Engine.addProcess "P" 33 0 ;;
              Engine.accessPage (Some 0%nat) 0 ;;
              Engine.accessPage (Some 32%nat) 0) Engine.constructor.

(** One process of 89 pages (32 resident, 57 swapped), then one [step]
    with 57 faults (pages 32-88) and 23 hits (page 88). *)
Definition hits23_of_80 : Engine.t :=
  Engine.run (Engine.addProcess "P" 89 0 ;;
              Engine.step (map Some (seq 32 57 ++ repeat 88%nat 23)) 0) Engine.constructor.


(** One process of 4 pages on the default engine. *)
Definition small_engine : Engine.t :=
  Engine.run (Engine.addProcess "P" 4 0) Engine.constructor.

Local Close Scope string_scope.

(* ------------------------------------------------------------------ *)
(** ** The LRU list read as a sequence

    [lru_rep s l]: the doubly linked list of [s] is the sequence [l] of
    page ids, head first: no id twice, [head]/[tail] are the first and
    last ids, and the node of each id holds its neighbours in [l]. *)

(** The id after / before [k] in [l]. *)
Fixpoint nxt (l : list nat) (k : nat) : option nat :=
  match l with
  | [] => None
  | y :: r => if decide (y = k) then head r else nxt r k
  end.

Fixpoint prv_from (p : option nat) (l : list nat) (k : nat) : option nat :=
  match l with
  | [] => None
  | y :: r => if decide (y = k) then p else prv_from (Some y) r k
  end.

Definition lastp (p : option nat) (l : list nat) : option nat :=
  match last l with Some y => Some y | None => p end.

Definition node_at (l : list nat) (k : nat) : option LRU.node :=
  if decide (k ∈ l) then Some (LRU.mkNode (prv_from None l k) (nxt l k)) else None.

Definition lru_rep (s : LRU.t) (l : list nat) : Prop :=
  NoDup l /\ LRU.head s = head l /\ LRU.tail s = last l /\
  forall k, LRU.nodeMap s !! k = node_at l k.

(** What a run of [LRUTrace] keeps: the list is the resident set, every
    resident page is in the store, accessed no later than the clock, and
    the list is ordered from the most to the least recent access. *)
Definition trace_inv (w : LRUTrace.world) (l : list nat) : Prop :=
  let lat := LRUTrace.lat (LRUTrace.pages w) in
  lru_rep (LRUTrace.lru w) l /\
  (forall k, k ∈ l <-> k ∈ LRUTrace.resident w) /\
  (forall k, k ∈ l -> is_Some (LRUTrace.pages w !! k)) /\
  (forall k, k ∈ l -> lat k <= LRUTrace.clock w) /\
  StronglySorted (fun a b => lat b <= lat a) l.

(** Two pages loaded and one re-accessed. *)
Definition lru_pages0 : gmap nat Page.t :=
  <[0%nat := Page.new 0 0]> (<[1%nat := Page.new 1 0]> (<[2%nat := Page.new 2 0]> ∅)).

Definition lru_trace0 : list LRUTrace.op :=
  [LRUTrace.Load 0 0 10; LRUTrace.Load 1 1 20; LRUTrace.Load 2 2 30;
   LRUTrace.Access 0 40; LRUTrace.Evict 2].

(* ------------------------------------------------------------------ *)
(** ** The swap pool's bookkeeping *)

(** A swap system whose free list is right: [blocks] has [blockCount]
    entries, [freeBlocks] names each free block exactly once and nothing
    else, and a block is free exactly when it holds no page. *)
Definition swap_wf (s : SwapSystem.t) : Prop :=
  length (SwapSystem.blocks s) = SwapSystem.blockCount s /\
  NoDup (SwapSystem.freeBlocks s) /\
  (forall i, i ∈ SwapSystem.freeBlocks s -> (i < length (SwapSystem.blocks s))%nat) /\
  (forall i blk, SwapSystem.blocks s !! i = Some blk ->
     (DiskBlock.isFree blk = true <-> DiskBlock.page blk = None) /\
     (i ∈ SwapSystem.freeBlocks s <-> DiskBlock.isFree blk = true)).

(** A freshly initialised pool: well formed, every block free in id
    order, no counts and no I/O history. *)
Definition swap_fresh (s : SwapSystem.t) : Prop :=
  swap_wf s /\
  SwapSystem.freeBlocks s = seq 0 (SwapSystem.blockCount s) /\
  SwapSystem.getUsedCount s = 0%nat /\
  SwapSystem.swapInCount s = 0%nat /\ SwapSystem.swapOutCount s = 0%nat /\
  SwapSystem.ioOperations s = [].

(* ------------------------------------------------------------------ *)
(** ** Policy objects after any sequence of calls *)

(** The [LRU] objects reachable from [new LRU()] by the calls the engine
    makes: [onPageLoad], [onPageAccess] and [onEvict], on any page. *)
Inductive lru_reach : LRU.t -> Prop :=
  | reach_new : lru_reach LRU.new
  | reach_load s x : lru_reach s -> lru_reach (LRU.onPageLoad s x)
  | reach_access s ps x t : lru_reach s -> lru_reach (LRU.onPageAccess s ps x t).1
  | reach_evict s x : lru_reach s -> lru_reach (LRU.onEvict s x).

(** The [FIFO] queues reachable from [new FIFO()] by [onPageLoad] and
    [onEvict]. *)
Inductive fifo_reach : FIFO.t -> Prop :=
  | freach_new : fifo_reach FIFO.new
  | freach_load q ps pg ts : fifo_reach q -> fifo_reach (FIFO.onPageLoad q ps pg ts).1
  | freach_evict q pg : fifo_reach q -> fifo_reach (FIFO.onEvict q pg).

(* ------------------------------------------------------------------ *)
(** ** Engine states after any sequence of calls *)

(** The engines reachable from [new SimulationEngine()] through the
    public operations. *)
Inductive engine_reach : Engine.t -> Prop :=
  | ereach_new : engine_reach Engine.constructor
  | ereach_addProcess s name n now :
      engine_reach s -> engine_reach (Engine.run (Engine.addProcess name n now) s)
  | ereach_access s page now :
      engine_reach s -> engine_reach (Engine.run (Engine.accessPage page now) s)
  | ereach_step s accs now :
      engine_reach s -> engine_reach (Engine.run (Engine.step accs now) s)
  | ereach_updateConfig s n :
      engine_reach s -> engine_reach (Engine.run (Engine.updateConfig n) s)
  | ereach_setPolicy s name :
      engine_reach s -> engine_reach (Engine.run (Engine.setPolicy name) s)
  | ereach_reset s :
      engine_reach s -> engine_reach (Engine.run Engine.reset s).

(** The access counters, the clock and the configuration. *)
Definition frozen (s : Engine.t) : nat * nat * nat * Z * Engine.config :=
  (Engine.memoryAccesses (Engine.st s), Engine.hitCount (Engine.st s),
   Engine.totalPageFaults (Engine.st s), Engine.simulationTime s, Engine.cfg s).

(** An operation that leaves [frozen] alone. *)
Definition keeps {A} (c : Engine.M A) : Prop :=
  forall s, frozen (Engine.run c s) = frozen s.

(** Every counted access was counted as a hit or as a fault. *)
Definition counts_ok (s : Engine.t) : Prop :=
  Engine.memoryAccesses (Engine.st s) =
    (Engine.hitCount (Engine.st s) + Engine.totalPageFaults (Engine.st s))%nat.

(** The processes, the id counter and the owner of every page. *)
Definition owners (s : Engine.t) : list Process.t * nat * gmap nat nat :=
  (Engine.processes s, Engine.pageIdCounter s, Page.processId <$> Engine.allPages s).

(** Where page [k] is: its location and frame. *)
Definition placement (s : Engine.t) (k : nat) : option (location * option nat) :=
  (fun p => (Page.location p, Page.frameId p)) <$> Engine.allPages s !! k.

(* ------------------------------------------------------------------ *)
(** ** Sample inputs *)

(** A pool of two free blocks. *)
Definition swap2 : SwapSystem.t := SwapSystem.new 2.

(** The same pool after page 5 was swapped out to block 0. *)
Definition swap2_used : SwapSystem.t :=
  (SwapSystem.allocateBlock (SwapSystem.new 2) ∅ 5 0).1.2.

(** Block 0 of [swap2_used]. *)
Definition blk0_used : DiskBlock.t := DiskBlock.mk 0 (Some 5%nat) false.

(** [LRU] after loading pages 1, 2 and 3 and evicting page 2. *)
Definition lru_sample : LRU.t :=
  LRU.onEvict (LRU.onPageLoad (LRU.onPageLoad (LRU.onPageLoad LRU.new 1) 2) 3) 2.

(** [FIFO] after loading pages 1 and 2 and evicting page 1. *)
Definition fifo_sample : FIFO.t :=
  FIFO.onEvict (FIFO.onPageLoad (FIFO.onPageLoad FIFO.new ∅ 1 0).1 ∅ 2 0).1 1.

(** [updateConfig({swapBlocks: 10})]. *)
Definition swap_only_config : Engine.newConfig :=
  Engine.mkNewConfig None (Some 10%nat) None None None.

(** Page 0 of [small_engine], resident in frame 0. *)
Definition page0_resident : Page.t := Page.mk 0 0 (Some 0%nat) None LRam 0 0 0 0.

(* ================================================================== *)
(** * Properties *)


(** Unfolds the engine monad so that a run computes. *)
Ltac unfold_M :=
  unfold mbind, mret, Engine.M_bind, Engine.M_ret, Engine.get, Engine.modify,
    Engine.emit, Engine.run, Engine.events in *; cbn in *.

Lemma bind_eq {A B} (c : Engine.M A) (f : A -> Engine.M B) (s : Engine.t) :
  (c ≫= f) s = let '(a, s1, e1) := c s in let '(b, s2, e2) := f a s1 in (b, s2, e1 ++ e2).
Proof. reflexivity. Qed.

(** ** Null access *)

(** C10: [accessPage] with a null page returns at once: the engine state
    (statistics, frames, swap blocks, policy, pages) is unchanged and no
    callback fires. *)
Theorem accessPage_null_noop (s : Engine.t) (now : Z) :
  Engine.accessPage None now s = (tt, s, []).
Proof. reflexivity. Qed.

(** ** setPolicy *)




(** ** Thrashing detection *)

Lemma checkThrashing_eq (s : Engine.t) (now : Z) :
  Engine.checkThrashing now s =
  (tt, Engine.set_isThrashing s
         (Qle_bool (Engine.thrashingThreshold s)
                   (SwapSystem.getIORate (Engine.swapSystem s) now)),
   if Bool.eqb (Engine.isThrashing s)
        (Qle_bool (Engine.thrashingThreshold s)
                  (SwapSystem.getIORate (Engine.swapSystem s) now))
   then [] else [EvThrashingChange (Qle_bool (Engine.thrashingThreshold s)
                  (SwapSystem.getIORate (Engine.swapSystem s) now))]).
Proof.
  unfold Engine.checkThrashing; unfold_M.
  destruct (Bool.eqb _ _); reflexivity.
Qed.

(** Successive notifications never repeat a value, and the first one
    differs from the state before. *)
Fixpoint alternating (prev : bool) (evs : list event) : Prop :=
  match evs with
  | [] => True
  | EvThrashingChange b :: rest => b <> prev /\ alternating b rest
  | _ :: _ => False
  end.

Lemma transitions_alternating (thr : Q) (rates : list Q) (prev : bool) :
  alternating prev (thrashing_transitions thr prev rates).
Proof.
  revert prev; induction rates as [|r rates IH]; intros prev; [exact I|].
  cbn. destruct (Bool.eqb prev (Qle_bool thr r)) eqn:E; cbn.
  - apply Bool.eqb_prop in E. rewrite E. apply IH.
  - split; [|apply IH]. intros Hb. rewrite Hb, Bool.eqb_reflx in E. discriminate.
Qed.

(** C5: each [checkThrashing] sets [isThrashing = (ioRate >= threshold)],
    and over any sequence of checks the [onThrashingChange]
    notifications are exactly one per change of that boolean, with the
    new value: never two in a row with the same value. *)
Theorem checkThrashing_edge_triggered (xs : list (SwapSystem.t * Z)) (s : Engine.t) :
  let '(_, s', evs) := check_seq xs s in
  let rates := map (fun x => SwapSystem.getIORate x.1 x.2) xs in
  evs = thrashing_transitions (Engine.thrashingThreshold s) (Engine.isThrashing s) rates /\
  alternating (Engine.isThrashing s) evs /\
  Engine.isThrashing s' = default (Engine.isThrashing s)
                            (last (map (Qle_bool (Engine.thrashingThreshold s)) rates)).
Proof.
  revert s; induction xs as [|[sw now] xs IH]; intros s.
  - cbn. repeat split.
  - cbn [check_seq]. rewrite !bind_eq. cbn [Engine.modify].
    rewrite bind_eq, checkThrashing_eq. cbn -[Qle_bool SwapSystem.getIORate check_seq].
    set (b := Qle_bool (Engine.thrashingThreshold s) (SwapSystem.getIORate sw now)).
    specialize (IH (Engine.set_isThrashing (Engine.set_swapSystem s sw) b)).
    destruct (check_seq xs _) as [[u s'] evs] eqn:E. cbn in IH |- *.
    destruct IH as (IH1 & IH2 & IH3). fold b.
    split; [|split].
    + rewrite IH1. destruct (Bool.eqb (Engine.isThrashing s) b); reflexivity.
    + destruct (Bool.eqb (Engine.isThrashing s) b) eqn:Eb; cbn.
      * apply Bool.eqb_prop in Eb. rewrite Eb. exact IH2.
      * split; [|exact IH2]. intros Hb. rewrite Hb, Bool.eqb_reflx in Eb. discriminate.
    + rewrite IH3. rewrite last_cons.
      destruct (last _); reflexivity.
Qed.

(** ** The windowed I/O rate *)

Lemma record_all_snoc (s : SwapSystem.t) (evs : list (io_type * Z)) (e : io_type * Z) :
  record_all s (evs ++ [e]) = SwapSystem.recordIO (record_all s evs) e.1 e.2.
Proof. unfold record_all. rewrite foldl_app. reflexivity. Qed.

Lemma record_all_window (s : SwapSystem.t) (evs : list (io_type * Z)) :
  SwapSystem.ioWindow (record_all s evs) = SwapSystem.ioWindow s.
Proof.
  induction evs as [|e evs IH] using rev_ind; [reflexivity|].
  rewrite record_all_snoc. exact IH.
Qed.

(** The operations kept by [recordIO] that are still in the window at
    [now] are those of all recorded events in the window at [now]. *)
Lemma record_all_in_window (s : SwapSystem.t) (evs : list (io_type * Z)) (now : Z) :
  SwapSystem.ioOperations s = [] ->
  (forall e, e ∈ evs -> e.2 <= now) ->
  filter (fun op => now - SwapSystem.time op < SwapSystem.ioWindow s)
         (SwapSystem.ioOperations (record_all s evs)) =
  filter (fun op => now - SwapSystem.time op < SwapSystem.ioWindow s)
         (map (fun e => SwapSystem.mkOp e.2 e.1) evs).
Proof.
  intros H0. induction evs as [|e evs IH] using rev_ind; intros Hle.
  - cbn. rewrite H0. reflexivity.
  - rewrite record_all_snoc. cbn [SwapSystem.recordIO SwapSystem.ioOperations].
    unfold SwapSystem.in_window. rewrite record_all_window.
    assert (He : e.2 <= now) by (apply Hle; set_solver).
    rewrite (list_filter_iff (fun op => bool_decide _ = true)
               (fun op => e.2 - SwapSystem.time op < SwapSystem.ioWindow s))
      by (intros; apply bool_decide_eq_true).
    rewrite list_filter_filter_l by (intros; lia).
    rewrite map_app, !filter_app, IH by (intros; apply Hle; set_solver).
    reflexivity.
Qed.

Lemma length_filter_map {A B} (P : B -> Prop) `{!forall x, Decision (P x)}
      (f : A -> B) (l : list A) :
  length (filter P (map f l)) = length (filter (fun x => P (f x)) l).
Proof.
  induction l as [|x l IH]; [reflexivity|].
  cbn [map]. rewrite !filter_cons. destruct (decide (P (f x))); cbn; lia.
Qed.

Lemma length_filter_all {A} (P : A -> Prop) `{!forall x, Decision (P x)} (l : list A) :
  (forall x, x ∈ l -> P x) -> length (filter P l) = length l.
Proof.
  induction l as [|x l IH]; intros Hl; [reflexivity|].
  rewrite filter_cons, decide_True by (apply Hl; set_solver).
  cbn. rewrite IH by (intros; apply Hl; set_solver). reflexivity.
Qed.

Lemma length_filter_none {A} (P : A -> Prop) `{!forall x, Decision (P x)} (l : list A) :
  (forall x, x ∈ l -> ~ P x) -> length (filter P l) = 0%nat.
Proof.
  induction l as [|x l IH]; intros Hl; [reflexivity|].
  rewrite filter_cons, decide_False by (apply Hl; set_solver).
  apply IH. intros; apply Hl; set_solver.
Qed.

Lemma recentOps_record_all (s : SwapSystem.t) (evs : list (io_type * Z)) (now : Z) :
  SwapSystem.ioOperations s = [] ->
  SwapSystem.ioWindow s = 1000 ->
  (forall e, e ∈ evs -> e.2 <= now) ->
  SwapSystem.recentOps (record_all s evs) now =
    length (filter (fun e => (now - e.2 < 1000)%Z) evs).
Proof.
  intros H0 HW Hle.
  unfold SwapSystem.recentOps, SwapSystem.in_window.
  rewrite record_all_window, HW.
  rewrite (list_filter_iff (fun op => bool_decide _ = true)
             (fun op => now - SwapSystem.time op < SwapSystem.ioWindow s))
    by (intros; rewrite HW; apply bool_decide_eq_true).
  rewrite record_all_in_window by assumption.
  by rewrite length_filter_map, HW.
Qed.

Lemma list_map_fmap {A B} (f : A -> B) (l : list A) : map f l = f <$> l.
Proof. induction l; cbn; congruence. Qed.

(** [(n / 1000) * 1000] in doubles gives back [n] for every [n] up to
    1000 (checked value by value). *)
Lemma rate_exact_upto_1000 (n : nat) :
  (n <= 1000)%nat ->
  (Number_of_Z (Z.of_nat n) / Number_of_Z 1000 * 1000)%float = Number_of_Z (Z.of_nat n).
Proof.
  intros Hn.
  assert (E : map (fun k => (Number_of_Z (Z.of_nat k) / Number_of_Z 1000 * 1000)%float)
                  (seq 0 1001) =
              map (fun k => Number_of_Z (Z.of_nat k)) (seq 0 1001))
    by (vm_compute; reflexivity).
  rewrite !list_map_fmap in E.
  apply (f_equal (fun l => l !! n)) in E.
  rewrite !list_lookup_fmap, lookup_seq_lt in E by lia.
  by injection E.
Qed.

(** C6 (amended): from a swap system with no recorded I/O (a new or
    reset one, window 1000 ms), after any [allocate]/[free] events
    ([recordIO] at their times, all at or before [now]), [getIORate()]
    is the double [(n / 1000) * 1000], [n] the number of events with
    [now - time < 1000].  For [n <= 1000] this is [n] itself: 5 events
    inside the window give exactly 5, and once the window has passed
    every event the rate is 0. *)
Theorem getIORate_window (s : SwapSystem.t) (evs : list (io_type * Z)) (now : Z) :
  SwapSystem.ioOperations s = [] ->
  SwapSystem.ioWindow s = 1000 ->
  (forall e, e ∈ evs -> e.2 <= now) ->
  let n := length (filter (fun e => (now - e.2 < 1000)%Z) evs) in
  SwapSystem.getIORate_f64 (record_all s evs) now =
    (Number_of_Z (Z.of_nat n) / Number_of_Z 1000 * 1000)%float /\
  ((n <= 1000)%nat ->
     SwapSystem.getIORate_f64 (record_all s evs) now = Number_of_Z (Z.of_nat n)) /\
  (length evs = 5%nat -> (forall e, e ∈ evs -> now - e.2 < 1000) ->
     SwapSystem.getIORate_f64 (record_all s evs) now = 5%float) /\
  ((forall e, e ∈ evs -> 1000 <= now - e.2) ->
     SwapSystem.getIORate_f64 (record_all s evs) now = 0%float).
Proof.
  intros H0 HW Hle n.
  assert (Hrate : SwapSystem.getIORate_f64 (record_all s evs) now =
                  (Number_of_Z (Z.of_nat n) / Number_of_Z 1000 * 1000)%float).
  { unfold SwapSystem.getIORate_f64.
    rewrite recentOps_record_all, record_all_window, HW by assumption. reflexivity. }
  split; [exact Hrate|]. split; [|split].
  - intros Hn. rewrite Hrate. by apply rate_exact_upto_1000.
  - intros H5 Hin. rewrite Hrate. unfold n. rewrite length_filter_all, H5 by exact Hin.
    reflexivity.
  - intros Hout. rewrite Hrate. unfold n.
    rewrite length_filter_none by (intros e He; specialize (Hout e He); lia).
    reflexivity.
Qed.

Lemma getIORate_window_witness :
  SwapSystem.getIORate_f64 (record_all (SwapSystem.new 64) io_events0) 10 = 5%float /\
  SwapSystem.getIORate_f64 (record_all (SwapSystem.new 64) io_events0) 2000 = 0%float.
Proof.
  assert (Hle : forall now, 4 <= now -> forall e, e ∈ io_events0 -> e.2 <= now).
  { intros now Hn e He. unfold io_events0 in He.
    repeat (apply elem_of_cons in He as [->|He]; [cbn; lia|]).
    by apply not_elem_of_nil in He. }
  split.
  - destruct (getIORate_window (SwapSystem.new 64) io_events0 10 eq_refl eq_refl
                (Hle 10 ltac:(lia))) as (_ & _ & H5 & _).
    apply H5; [reflexivity|].
    intros e He. unfold io_events0 in He.
    repeat (apply elem_of_cons in He as [->|He]; [cbn; lia|]).
    by apply not_elem_of_nil in He.
  - destruct (getIORate_window (SwapSystem.new 64) io_events0 2000 eq_refl eq_refl
                (Hle 2000 ltac:(lia))) as (_ & _ & _ & H0).
    apply H0. intros e He. unfold io_events0 in He.
    repeat (apply elem_of_cons in He as [->|He]; [cbn; lia|]).
    by apply not_elem_of_nil in He.
Defined.

(** C6 (counterexample): 1001 swap operations in one millisecond give
    the I/O rate [1000.9999999999999], not 1001: the double quotient
    [1001 / 1000] is rounded before the product. *)
Lemma ioRate_1001_events :
  length (filter (fun e => (0 - e.2 < 1000)%Z) io_burst) = 1001%nat /\
  SwapSystem.getIORate_f64 (record_all (SwapSystem.new 64) io_burst) 0 =
    0x1.f47ffffffffffp+9%float /\
  SwapSystem.getIORate_f64 (record_all (SwapSystem.new 64) io_burst) 0 <> Number_of_Z 1001.
Proof.
  assert (E : SwapSystem.getIORate_f64 (record_all (SwapSystem.new 64) io_burst) 0 =
              0x1.f47ffffffffffp+9%float) by (vm_compute; reflexivity).
  split; [vm_compute; reflexivity|]. split; [exact E|].
  rewrite E. intros H.
  apply (f_equal (fun x => PrimFloat.eqb x (Number_of_Z 1001))) in H.
  vm_compute in H. discriminate.
Qed.

(** ** The hit ratio of the stats snapshot *)

(** C7 (counterexample): after one hit and one fault, [hitRatio] is the
    string ["50.0"%string] (a percentage), not the number [1/2]; after 23
    hits in 80 accesses it is ["28.7"%string]: the double
    [23 / 80 * 100] is [28.749999999999996], which rounds down. *)
Lemma hitRatio_is_percent_string :
  Stats.memoryAccesses (getStats hit_then_fault 0) = 2%nat /\
  Stats.hitCount (getStats hit_then_fault 0) = 1%nat /\
  Stats.hitRatio (getStats hit_then_fault 0) = JStr "50.0"%string /\
  (forall q, Stats.hitRatio (getStats hit_then_fault 0) <> JNum q) /\
  Stats.memoryAccesses (getStats hits23_of_80 0) = 80%nat /\
  Stats.hitCount (getStats hits23_of_80 0) = 23%nat /\
  Stats.hitRatio (getStats hits23_of_80 0) = JStr "28.7"%string.
Proof.
  assert (E : Stats.hitRatio (getStats hit_then_fault 0) = JStr "50.0"%string) by (vm_compute; reflexivity).
  split; [vm_compute; reflexivity|]. split; [vm_compute; reflexivity|].
  split; [exact E|]. split; [intros q; rewrite E; discriminate|].
  vm_compute. repeat split.
Qed.

Lemma toFixed1_tenths_close (x : Q) :
  (x - (1 # 20) < inject_Z (toFixed1_tenths x) / 10 <= x + (1 # 20))%Q.
Proof.
  unfold toFixed1_tenths.
  pose proof (Qfloor_le (x * 10 + (1 # 2))) as H1.
  pose proof (Qlt_floor (x * 10 + (1 # 2))) as H2.
  set (n := Qfloor (x * 10 + (1 # 2))) in *.
  rewrite inject_Z_plus in H2.
  split.
  - apply Qlt_shift_div_l; [reflexivity|].
    apply (Qplus_lt_l _ _ 1). eapply Qlt_le_trans; [|apply Qle_refl].
    revert H2. unfold Qlt, Qplus, Qminus, Qmult; cbn. lia.
  - apply Qle_shift_div_r; [reflexivity|].
    revert H1. unfold Qle, Qplus, Qmult; cbn. lia.
Qed.

(** C7 (amended): [hitRatio] is the number 0 when there has been no
    access, and otherwise the string [toFixed(1)] of the double
    [hitCount / memoryAccesses * 100], i.e. that double's exact value
    rounded to the nearest tenth. *)
Theorem getStats_hitRatio (s : Engine.t) (now : Z) :
  (Stats.memoryAccesses (getStats s now) = 0%nat ->
     Stats.hitRatio (getStats s now) = JNum 0%float) /\
  ((0 < Stats.memoryAccesses (getStats s now))%nat ->
     let r := Q_of_float
                (Number_of_Z (Z.of_nat (Stats.hitCount (getStats s now)))
                 / Number_of_Z (Z.of_nat (Stats.memoryAccesses (getStats s now))) * 100)%float in
     Stats.hitRatio (getStats s now) = JStr (toFixed1 r) /\
     (r - (1 # 20) < inject_Z (toFixed1_tenths r) / 10 <= r + (1 # 20))%Q).
Proof.
  unfold getStats; cbn [Stats.memoryAccesses Stats.hitRatio Stats.hitCount].
  split.
  - intros H0. rewrite H0. reflexivity.
  - intros Hpos. split; [|apply toFixed1_tenths_close].
    apply Nat.ltb_lt in Hpos. rewrite Hpos. reflexivity.
Qed.

(** ** FIFO victim selection *)





(** ** updateConfig and policy changes *)

(** C8 (counterexample): on the default engine with one 4-page process,
    [updateConfig({ramFrames: 32, swapBlocks: 64, policy: 'FIFO'})]
    switches to a fresh FIFO policy but keeps the pages, which stay in
    their frames: no reset happens. *)
Lemma policy_change_keeps_pages :
  let s' := Engine.run (Engine.updateConfig
              (Engine.mkNewConfig (Some 32%nat) (Some 64%nat) None None (Some "FIFO"%string)))
              small_engine in
  Engine.policy s' = PFIFO [] /\
  Engine.allPages s' = Engine.allPages small_engine /\
  Engine.allPages s' <> ∅ /\
  Engine.frames s' = Engine.frames small_engine /\
  (Engine.frames s' !! 0%nat ≫= Frame.page) = Some 0%nat.
Proof.
  cbn zeta. split; [vm_compute; reflexivity|].
  split; [vm_compute; reflexivity|].
  split; [vm_compute; discriminate|].
  split; vm_compute; reflexivity.
Qed.

Lemma updateConfig_eq (n : Engine.newConfig) (s : Engine.t) :
  Engine.run (Engine.updateConfig n) s =
  let needsReinit :=
    negb (bool_decide (Engine.nc_ramFrames n = Some (Engine.ramFrames (Engine.cfg s))))
    || negb (bool_decide (Engine.nc_swapBlocks n = Some (Engine.swapBlocks (Engine.cfg s)))) in
  let s1 := Engine.set_cfg s (Engine.assign (Engine.cfg s) n) in
  let s2 := if needsReinit then Engine.run Engine.reset s1 else s1 in
  match Engine.nc_policy n with
  | Some name => if decide (name = ""%string) then s2 else Engine.run (Engine.setPolicy name) s2
  | None => s2
  end.
Proof.
  unfold Engine.updateConfig. unfold_M.
  destruct (negb _ || negb _); [destruct (Engine.reset _) as [[u s2] e2]|];
    destruct (Engine.nc_policy n) as [name|]; try destruct (decide _); cbn; try reflexivity.
Qed.

(** C8 (amended): [updateConfig] resets the engine exactly when a pool
    size is absent or differs from the current one. With both sizes
    unchanged, frames, pages, processes, swap pool and counters are kept,
    and a non-empty policy name only swaps in a fresh policy object (an
    empty name keeps the policy). Otherwise the page set and processes are
    cleared, the frames are recreated for the new size, every swap block
    is free and the I/O history is empty, the counters are zeroed and the
    policy is fresh. *)
Theorem updateConfig_resets_only_on_resize (n : Engine.newConfig) (s : Engine.t) :
  let s' := Engine.run (Engine.updateConfig n) s in
  let named := match Engine.nc_policy n with Some name => name <> ""%string | None => False end in
  ((Engine.nc_ramFrames n = Some (Engine.ramFrames (Engine.cfg s)) /\
    Engine.nc_swapBlocks n = Some (Engine.swapBlocks (Engine.cfg s))) ->
     Engine.frames s' = Engine.frames s /\ Engine.freeFrames s' = Engine.freeFrames s /\
     Engine.allPages s' = Engine.allPages s /\ Engine.processes s' = Engine.processes s /\
     Engine.swapSystem s' = Engine.swapSystem s /\ Engine.st s' = Engine.st s /\
     (named -> Engine.policy s' = PFIFO [] \/ Engine.policy s' = PLRU LRU.new) /\
     (~ named -> Engine.policy s' = Engine.policy s)) /\
  (~ (Engine.nc_ramFrames n = Some (Engine.ramFrames (Engine.cfg s)) /\
      Engine.nc_swapBlocks n = Some (Engine.swapBlocks (Engine.cfg s))) ->
     Engine.allPages s' = ∅ /\ Engine.processes s' = [] /\ Engine.pageIdCounter s' = 0%nat /\
     Engine.frames s' = map Frame.new (seq 0 (Engine.ramFrames (Engine.cfg s'))) /\
     Engine.freeFrames s' = seq 0 (Engine.ramFrames (Engine.cfg s')) /\
     SwapSystem.blocks (Engine.swapSystem s') =
       map DiskBlock.new (seq 0 (SwapSystem.blockCount (Engine.swapSystem s'))) /\
     SwapSystem.freeBlocks (Engine.swapSystem s') =
       seq 0 (SwapSystem.blockCount (Engine.swapSystem s')) /\
     SwapSystem.ioOperations (Engine.swapSystem s') = [] /\
     Engine.st s' = Engine.stats0 /\ Engine.simulationTime s' = 0 /\
     Engine.isThrashing s' = false /\
     (Engine.policy s' = PFIFO [] \/ Engine.policy s' = PLRU LRU.new)) /\
  Engine.ramFrames (Engine.cfg s') =
    default (Engine.ramFrames (Engine.cfg s)) (Engine.nc_ramFrames n).
Proof.
  cbv zeta. rewrite updateConfig_eq. cbv zeta.
  unfold Engine.reset, Engine.setPolicy, Engine.initializeFrames. unfold_M.
  split; [|split].
  - intros [H1 H2]. rewrite (bool_decide_eq_true_2 _ H1), (bool_decide_eq_true_2 _ H2).
    cbn [negb orb].
    destruct (Engine.nc_policy n) as [name|]; [destruct (decide (name = ""%string))|];
      cbn; repeat split; try tauto;
      destruct (decide (Engine.toUpperCase _ = _)); auto.
  - intros Hn.
    assert (Hr : negb (bool_decide (Engine.nc_ramFrames n = Some (Engine.ramFrames (Engine.cfg s))))
              || negb (bool_decide (Engine.nc_swapBlocks n = Some (Engine.swapBlocks (Engine.cfg s))))
              = true).
    { do 2 case_bool_decide; cbn; tauto. }
    rewrite Hr.
    destruct (Engine.nc_policy n) as [name|]; [destruct (decide (name = ""%string))|];
      cbn; repeat split;
      try (destruct (Engine.policy s); cbn; auto);
      destruct (decide (Engine.toUpperCase _ = _)); auto.
  - destruct (negb _ || negb _), (Engine.nc_policy n) as [name|];
      try destruct (decide (name = ""%string)); reflexivity.
Qed.

(** ** Eviction with a full swap pool *)

(** C1 (code bug): with every frame and every swap block taken, the
    access of page 96 does not fail. [evictPage] frees frame 0 of page 0
    and [allocateBlock] returns [null] for it, yet the access completes:
    page 96 is loaded into frame 0 and no error reaches the caller. Page 0
    is left in no frame and no block, the pool's swap-out counter is not
    incremented while the engine's is. *)
Theorem swap_exhausted_access_completes :
  Engine.freeFrames full_engine = [] /\
  SwapSystem.freeBlocks (Engine.swapSystem full_engine) = [] /\
  Engine.events (Engine.accessPage (Some 96%nat) 0) full_engine =
    [EvPageFault 96; EvPageEvicted 0 (Some 0%nat); EvPageSwappedOut 0 None;
     EvPageAllocated 96 0; EvThrashingChange true] /\
  (Engine.allPages after_exhausted_access !! 96%nat) ≫= Page.frameId = Some 0%nat /\
  (Engine.frames after_exhausted_access !! 0%nat) ≫= Frame.page = Some 96%nat /\
  Forall (fun fr => Frame.page fr <> Some 0%nat) (Engine.frames after_exhausted_access) /\
  Forall (fun b => DiskBlock.page b <> Some 0%nat)
         (SwapSystem.blocks (Engine.swapSystem after_exhausted_access)) /\
  SwapSystem.swapOutCount (Engine.swapSystem after_exhausted_access) =
    SwapSystem.swapOutCount (Engine.swapSystem full_engine) /\
  Engine.swapOutCount (Engine.st after_exhausted_access) =
    S (Engine.swapOutCount (Engine.st full_engine)).
Proof.
  split; [vm_compute; reflexivity|].
  split; [vm_compute; reflexivity|].
  split; [vm_compute; reflexivity|].
  split; [vm_compute; reflexivity|].
  split; [vm_compute; reflexivity|].
  split; [vm_compute; repeat (constructor; [discriminate|]); constructor|].
  split; [vm_compute; repeat (constructor; [discriminate|]); constructor|].
  split; vm_compute; reflexivity.
Qed.

(** C2 (code bug): the page/frame consistency holds on the engine with
    full RAM and swap, and fails after the access of page 96: page 0 is
    still marked resident in frame 0 while frame 0 holds page 96. *)
Theorem exhausted_eviction_breaks_consistency :
  consistent full_engine = true /\
  consistent after_exhausted_access = false /\
  (Engine.allPages after_exhausted_access !! 0%nat) ≫= Page.frameId = Some 0%nat /\
  fmap Page.location (Engine.allPages after_exhausted_access !! 0%nat) = Some LRam /\
  (Engine.frames after_exhausted_access !! 0%nat) ≫= Frame.page = Some 96%nat.
Proof.
  repeat split; vm_compute; reflexivity.
Qed.

(** ** LRU victim selection *)

Lemma nxt_app a b j :
  nxt (a ++ b) j = if decide (j ∈ a) then from_option Some (head b) (nxt a j) else nxt b j.
Proof.
  induction a as [|y a IH]; cbn.
  - rewrite decide_False; [done|]. apply not_elem_of_nil.
  - destruct (decide (y = j)) as [->|Hne].
    + rewrite decide_True by set_solver. by destruct a.
    + rewrite IH. destruct (decide (j ∈ a)) as [Hin|Hin].
      * rewrite decide_True by set_solver. done.
      * rewrite decide_False; [done|]. rewrite elem_of_cons. intros [->|]; done.
Qed.

Lemma prv_app p a b j :
  prv_from p (a ++ b) j =
  if decide (j ∈ a) then prv_from p a j else prv_from (lastp p a) b j.
Proof.
  revert p. induction a as [|y a IH]; intros p; cbn.
  - rewrite decide_False; [done|]. apply not_elem_of_nil.
  - destruct (decide (y = j)) as [->|Hne].
    + rewrite decide_True by set_solver. done.
    + rewrite IH. destruct (decide (j ∈ a)) as [Hin|Hin].
      * rewrite decide_True by set_solver. done.
      * rewrite decide_False by (rewrite elem_of_cons; intros [->|]; done).
        unfold lastp. rewrite last_cons. by destruct (last a).
Qed.

Lemma nxt_not_in l j : j ∉ l -> nxt l j = None.
Proof.
  induction l as [|y l IH]; intros Hn; cbn; [done|].
  rewrite elem_of_cons in Hn. rewrite decide_False by naive_solver. naive_solver.
Qed.

Lemma prv_not_in p l j : j ∉ l -> prv_from p l j = None.
Proof.
  revert p. induction l as [|y l IH]; intros p Hn; cbn; [done|].
  rewrite elem_of_cons in Hn. rewrite decide_False by naive_solver. naive_solver.
Qed.

Lemma nxt_none_last l j :
  NoDup l -> j ∈ l -> (nxt l j = None <-> last l = Some j).
Proof.
  induction l as [|y l IH]; intros Hnd Hin; [by apply not_elem_of_nil in Hin|].
  apply NoDup_cons in Hnd as [Hy Hnd]. rewrite last_cons. simpl nxt.
  destruct (decide (y = j)) as [->|Hne].
  - destruct (last l) as [w|] eqn:E.
    + apply last_Some_elem_of in E. destruct l as [|z l]; [by apply not_elem_of_nil in E|].
      cbn. split; [done|]. intros [= ->]. done.
    + apply last_None in E as ->. done.
  - rewrite elem_of_cons in Hin. destruct Hin as [->|Hin]; [done|].
    rewrite IH by done.
    destruct (last l) as [w|] eqn:E; [done|].
    apply last_None in E as ->. by apply not_elem_of_nil in Hin.
Qed.

Lemma prv_indep p q l j :
  j ∈ l -> head l <> Some j -> prv_from p l j = prv_from q l j.
Proof.
  destruct l as [|y l]; intros Hin Hh; cbn in Hh |- *; [done|].
  destruct (decide (y = j)); [congruence|reflexivity].
Qed.

Lemma prv_head p l j : head l = Some j -> prv_from p l j = p.
Proof. destruct l as [|y l]; cbn; [done|]. intros [= ->]. by rewrite decide_True. Qed.

Lemma node_at_in l k :
  k ∈ l -> node_at l k = Some (LRU.mkNode (prv_from None l k) (nxt l k)).
Proof. intros H. unfold node_at. by rewrite decide_True. Qed.

Lemma node_at_out l k : k ∉ l -> node_at l k = None.
Proof. intros H. unfold node_at. by rewrite decide_False. Qed.

Lemma lookup_set_next m r v k :
  LRU.set_next m r v !! k =
  if decide (r = Some k) then (fun n => LRU.mkNode (LRU.prev n) v) <$> m !! k else m !! k.
Proof.
  destruct r as [j|]; cbn; [|done].
  destruct (decide (Some j = Some k)) as [[= ->]|Hne]; [by rewrite lookup_alter_eq|].
  rewrite lookup_alter_ne; congruence.
Qed.

Lemma lookup_set_prev m r v k :
  LRU.set_prev m r v !! k =
  if decide (r = Some k) then (fun n => LRU.mkNode v (LRU.next n)) <$> m !! k else m !! k.
Proof.
  destruct r as [j|]; cbn; [|done].
  destruct (decide (Some j = Some k)) as [[= ->]|Hne]; [by rewrite lookup_alter_eq|].
  rewrite lookup_alter_ne; congruence.
Qed.

Lemma get_prev_set_next m r v k : LRU.get_prev (LRU.set_next m r v) k = LRU.get_prev m k.
Proof.
  unfold LRU.get_prev. rewrite lookup_set_next.
  case_decide; [|done]. by destruct (m !! k).
Qed.

Lemma get_next_set_prev m r v k : LRU.get_next (LRU.set_prev m r v) k = LRU.get_next m k.
Proof.
  unfold LRU.get_next. rewrite lookup_set_prev.
  case_decide; [|done]. by destruct (m !! k).
Qed.

Lemma get_next_set_next_ne m r v k : r <> Some k -> LRU.get_next (LRU.set_next m r v) k = LRU.get_next m k.
Proof. intros H. unfold LRU.get_next. rewrite lookup_set_next. by rewrite decide_False. Qed.

Lemma get_prev_set_prev_ne m r v k : r <> Some k -> LRU.get_prev (LRU.set_prev m r v) k = LRU.get_prev m k.
Proof. intros H. unfold LRU.get_prev. rewrite lookup_set_prev. by rewrite decide_False. Qed.

Lemma rep_get s l k :
  lru_rep s l -> k ∈ l ->
  LRU.get_prev (LRU.nodeMap s) k = prv_from None l k /\
  LRU.get_next (LRU.nodeMap s) k = nxt l k.
Proof.
  intros (_ & _ & _ & Hm) Hk. unfold LRU.get_prev, LRU.get_next.
  rewrite Hm, node_at_in by done. done.
Qed.

Lemma lastp_none l : lastp None l = last l.
Proof. unfold lastp. by destruct (last l). Qed.

Lemma lastp_some p y l : lastp p (y :: l) = lastp (Some y) l.
Proof. unfold lastp. rewrite last_cons. by destruct (last l). Qed.

Lemma rep_moveToFront_node s l1 x l2 :
  lru_rep s (l1 ++ x :: l2) -> lru_rep (LRU.moveToFront_node s x) (x :: l1 ++ l2).
Proof.
  intros Hrep. pose proof Hrep as (Hnd & Hh & Ht & Hm).
  pose proof Hnd as Hnd'. apply NoDup_app in Hnd' as (Hnd1 & Hdis & Hnd2').
  apply NoDup_cons in Hnd2' as [Hx2 Hnd2].
  assert (Hx1 : x ∉ l1) by (intros H; apply (Hdis x H); set_solver).
  assert (Hdis2 : forall y, y ∈ l1 -> y ∉ l2) by (intros y H1 H2; apply (Hdis y H1); set_solver).
  assert (Hgx : LRU.get_prev (LRU.nodeMap s) x = last l1 /\
                LRU.get_next (LRU.nodeMap s) x = head l2).
  { destruct (rep_get s _ x Hrep) as [Hp Hn]; [set_solver|].
    rewrite Hp, Hn, prv_app, nxt_app, !decide_False by done. cbn.
    rewrite !decide_True by done. split; [apply lastp_none|done]. }
  destruct Hgx as [Hgp Hgn].
  unfold LRU.moveToFront_node.
  destruct (head l1) as [h|] eqn:Hh1.
  2:{ apply head_None in Hh1 as ->. rewrite decide_True by (rewrite Hh; done). exact Hrep. }
  assert (Hhin : h ∈ l1) by (by apply head_Some_elem_of).
  assert (Hhs : LRU.head s = Some h) by (rewrite Hh, head_app, Hh1; done).
  rewrite Hhs, decide_False by (intros [= ->]; done).
  destruct (last l1) as [pa|] eqn:Hpa.
  2:{ apply last_None in Hpa as ->. done. }
  assert (Hpa1 : pa ∈ l1) by (by apply last_Some_elem_of).
  assert (Hpx : pa <> x) by (intros ->; done).
  assert (Hhx : h <> x) by (intros ->; done).
  assert (Hl2x : head l2 <> Some x) by (intros Hc; apply Hx2; by apply head_Some_elem_of).
  rewrite get_next_set_next_ne by congruence. rewrite get_prev_set_next, Hgp, Hgn.
  rewrite get_prev_set_prev_ne by done. rewrite get_prev_set_next, Hgp.
  unfold lru_rep. cbn [LRU.head LRU.tail LRU.nodeMap].
  split; [|split; [|split]].
  - apply NoDup_cons. split; [set_solver|]. apply NoDup_app. auto.
  - done.
  - rewrite Ht, last_app_cons. destruct l2 as [|y l2'].
    + rewrite decide_True by done. rewrite app_nil_r. cbn. rewrite last_cons, Hpa. done.
    + destruct (last (y :: l2')) as [z|] eqn:Hz.
      2:{ by apply last_None in Hz. }
      assert (Hz2 : z ∈ y :: l2') by (by apply last_Some_elem_of).
      rewrite last_cons, Hz. rewrite decide_False by (intros [= ->]; done).
      rewrite last_cons, last_app_cons, Hz. done.
  - intros k.
    rewrite lookup_set_prev, lookup_alter, !lookup_set_prev, !lookup_set_next, !Hm.
    destruct (decide (k = x)) as [->|Hkx].
    { rewrite !node_at_in by set_solver. cbn [nxt prv_from].
      repeat case_decide; simplify_eq; try congruence. cbn. rewrite head_app, Hh1. done. }
    destruct (decide (k ∈ l1)) as [Hk1|Hk1].
    { assert (Hk2 : k ∉ l2) by auto.
      assert (Hl2k : head l2 <> Some k) by (intros Hc; apply Hk2; by apply head_Some_elem_of).
      assert (Hprev : prv_from (Some x) l1 k =
                      if decide (h = k) then Some x else prv_from None l1 k).
      { destruct (decide (h = k)); [subst; by apply prv_head|]. apply prv_indep; [done|congruence]. }
      assert (Hnext : from_option Some (head l2) (nxt l1 k) =
                      if decide (pa = k) then head l2
                      else from_option Some (Some x) (nxt l1 k)).
      { destruct (decide (pa = k)).
        - subst. rewrite (proj2 (nxt_none_last l1 k Hnd1 Hk1) Hpa). done.
        - destruct (nxt l1 k) eqn:E; [done|].
          apply (nxt_none_last l1 k Hnd1 Hk1) in E. congruence. }
      rewrite !node_at_in by set_solver. cbn [nxt prv_from].
      rewrite !nxt_app, !prv_app, !(decide_True (P := k ∈ l1)) by done.
      rewrite (decide_False (P := x = k)) by congruence.
      rewrite Hprev, Hnext. cbn [head].
      repeat case_decide; simplify_eq; try congruence; done. }
    destruct (decide (k ∈ l2)) as [Hk2|Hk2].
    { assert (Hprev : prv_from (Some pa) l2 k =
                      if decide (head l2 = Some k) then Some pa else prv_from (Some x) l2 k).
      { destruct (decide (head l2 = Some k)); [by apply prv_head|].
        apply prv_indep; [done|congruence]. }
      rewrite !node_at_in by set_solver. cbn [nxt prv_from].
      rewrite !nxt_app, !prv_app, !(decide_False (P := k ∈ l1)) by done.
      rewrite (decide_False (P := x = k)) by congruence.
      cbn [nxt prv_from]. rewrite (decide_False (P := x = k)) by congruence.
      rewrite ?(decide_False (P := x = k)) by congruence. unfold lastp. rewrite Hpa, Hprev.
      repeat case_decide; simplify_eq; try congruence; try done.
      all: exfalso; eauto. }
    assert (Hkl : k ∉ l1 ++ x :: l2) by set_solver.
    assert (HkL : k ∉ x :: l1 ++ l2) by set_solver.
    rewrite (node_at_out _ _ Hkl), (node_at_out _ _ HkL). repeat case_decide; simplify_eq; try done; set_solver.
Qed.

Lemma rep_new : lru_rep LRU.new [].
Proof.
  split; [constructor|]. split; [done|]. split; [done|].
  intros k. cbn. rewrite lookup_empty. by rewrite node_at_out by apply not_elem_of_nil.
Qed.

Lemma rep_addToFront_fresh s l x :
  x ∉ l -> lru_rep s l -> lru_rep (LRU.addToFront_fresh s x) (x :: l).
Proof.
  intros Hx (Hnd & Hh & Ht & Hm). unfold LRU.addToFront_fresh. rewrite Hh.
  destruct l as [|h r].
  - cbn [head]. unfold lru_rep. cbn [LRU.head LRU.tail LRU.nodeMap].
    split; [by apply NoDup_singleton|]. split; [done|]. split; [done|].
    intros k. rewrite lookup_insert, Hm.
    destruct (decide (x = k)) as [<-|Hne].
    + rewrite node_at_in by set_solver. cbn. by rewrite decide_True.
    + rewrite !node_at_out by set_solver. done.
  - cbn [head]. unfold lru_rep. cbn [LRU.head LRU.tail LRU.nodeMap].
    assert (Hhx : h <> x) by (intros ->; set_solver).
    split; [by apply NoDup_cons|]. split; [done|]. split; [by rewrite Ht|].
    intros k. rewrite lookup_set_prev, !lookup_alter, !lookup_insert, !Hm.
    unfold node_at. cbn [nxt prv_from head].
    repeat case_decide; simplify_eq; try congruence; try done; set_solver.
Qed.

Lemma rep_onEvict s l1 x l2 :
  lru_rep s (l1 ++ x :: l2) -> lru_rep (LRU.onEvict s x) (l1 ++ l2).
Proof.
  intros Hrep. pose proof Hrep as (Hnd & Hh & Ht & Hm).
  pose proof Hnd as Hnd'. apply NoDup_app in Hnd' as (Hnd1 & Hdis & Hnd2').
  apply NoDup_cons in Hnd2' as [Hx2 Hnd2].
  assert (Hx1 : x ∉ l1) by (intros H; apply (Hdis x H); set_solver).
  assert (Hdis2 : forall y, y ∈ l1 -> y ∉ l2) by (intros y H1 H2; apply (Hdis y H1); set_solver).
  assert (Hgx : LRU.get_prev (LRU.nodeMap s) x = last l1 /\
                LRU.get_next (LRU.nodeMap s) x = head l2).
  { destruct (rep_get s _ x Hrep) as [Hp Hn]; [set_solver|].
    rewrite Hp, Hn, prv_app, nxt_app, !decide_False by done. cbn.
    rewrite !decide_True by done. split; [apply lastp_none|done]. }
  destruct Hgx as [Hgp Hgn].
  assert (Hl1x : last l1 <> Some x) by (intros Hc; apply Hx1; by apply last_Some_elem_of).
  assert (Hl2x : head l2 <> Some x) by (intros Hc; apply Hx2; by apply head_Some_elem_of).
  unfold LRU.onEvict. rewrite Hm, node_at_in by set_solver.
  rewrite Hgp, Hgn.
  rewrite get_next_set_next_ne by done. rewrite get_prev_set_next, Hgp, Hgn.
  rewrite get_next_set_prev, get_next_set_next_ne by done. rewrite Hgn.
  rewrite get_prev_set_prev_ne by done. rewrite get_prev_set_next, Hgp.
  unfold lru_rep. cbn [LRU.head LRU.tail LRU.nodeMap].
  split; [|split; [|split]].
  - apply NoDup_app. auto.
  - rewrite Hh. destruct l1 as [|h r]; cbn.
    + by rewrite decide_True.
    + rewrite decide_False by (intros [= ->]; set_solver). done.
  - rewrite Ht, last_app_cons. destruct l2 as [|y l2'].
    + rewrite decide_True by done. by rewrite app_nil_r.
    + destruct (last (y :: l2')) as [z|] eqn:Hz.
      2:{ by apply last_None in Hz. }
      assert (Hz2 : z ∈ y :: l2') by (by apply last_Some_elem_of).
      rewrite last_cons, Hz. rewrite decide_False by (intros [= ->]; done).
      rewrite last_app_cons, Hz. done.
  - intros k. rewrite lookup_delete, lookup_set_prev, lookup_set_next, Hm.
    destruct (decide (k = x)) as [->|Hkx].
    { rewrite decide_True by done. rewrite node_at_out by set_solver. done. }
    rewrite (decide_False (P := x = k)) by congruence.
    destruct (decide (k ∈ l1)) as [Hk1|Hk1].
    { assert (Hk2 : k ∉ l2) by auto.
      assert (Hl2k : head l2 <> Some k) by (intros Hc; apply Hk2; by apply head_Some_elem_of).
      assert (Hnext : from_option Some (head l2) (nxt l1 k) =
                      if decide (last l1 = Some k) then head l2
                      else from_option Some (Some x) (nxt l1 k)).
      { destruct (decide (last l1 = Some k)) as [E|E].
        - rewrite (proj2 (nxt_none_last l1 k Hnd1 Hk1) E). done.
        - destruct (nxt l1 k) eqn:E'; [done|].
          apply (nxt_none_last l1 k Hnd1 Hk1) in E'. congruence. }
      rewrite !node_at_in by set_solver.
      rewrite !nxt_app, !prv_app, !(decide_True (P := k ∈ l1)) by done.
      rewrite Hnext. cbn [head].
      repeat case_decide; simplify_eq; try congruence; done. }
    destruct (decide (k ∈ l2)) as [Hk2|Hk2].
    { assert (Hprev : prv_from (last l1) l2 k =
                      if decide (head l2 = Some k) then last l1 else prv_from (Some x) l2 k).
      { destruct (decide (head l2 = Some k)); [by apply prv_head|].
        apply prv_indep; [done|congruence]. }
      rewrite !node_at_in by set_solver.
      rewrite !nxt_app, !prv_app, !(decide_False (P := k ∈ l1)) by done.
      cbn [nxt prv_from]. rewrite ?(decide_False (P := x = k)) by congruence.
      rewrite lastp_none, Hprev.
      assert (Hl1k : last l1 <> Some k) by (intros Hc; apply Hk1; by apply last_Some_elem_of).
      repeat case_decide; simplify_eq; try congruence; done. }
    assert (Hkl : k ∉ l1 ++ x :: l2) by set_solver.
    assert (HkL : k ∉ l1 ++ l2) by set_solver.
    rewrite (node_at_out _ _ Hkl), (node_at_out _ _ HkL).
    repeat case_decide; simplify_eq; try done.
Qed.

Lemma rep_elem s l k : lru_rep s l -> (is_Some (LRU.nodeMap s !! k) <-> k ∈ l).
Proof.
  intros (_ & _ & _ & Hm). rewrite Hm. unfold node_at.
  case_decide; split; intros H'; try done; by destruct H'.
Qed.

Lemma rep_moveToFront s l x :
  lru_rep s l -> x ∈ l ->
  exists l1 l2, l = l1 ++ x :: l2 /\ lru_rep (LRU.moveToFront s x) (x :: l1 ++ l2).
Proof.
  intros Hrep Hx. destruct (list_elem_of_split l x Hx) as (l1 & l2 & ->).
  exists l1, l2. split; [done|]. unfold LRU.moveToFront.
  destruct (LRU.nodeMap s !! x) eqn:E.
  - by apply rep_moveToFront_node.
  - exfalso. apply (rep_elem s _ x Hrep) in Hx. rewrite E in Hx. by destruct Hx.
Qed.

Lemma rep_onPageLoad s l x :
  lru_rep s l -> x ∉ l -> lru_rep (LRU.onPageLoad s x) (x :: l).
Proof.
  intros Hrep Hx. unfold LRU.onPageLoad, LRU.addToFront.
  destruct (LRU.nodeMap s !! x) eqn:E.
  - exfalso. apply Hx, (rep_elem s _ x Hrep). rewrite E. done.
  - by apply rep_addToFront_fresh.
Qed.

Lemma rep_onEvict_in s l x :
  lru_rep s l -> x ∈ l ->
  exists l1 l2, l = l1 ++ x :: l2 /\ lru_rep (LRU.onEvict s x) (l1 ++ l2).
Proof.
  intros Hrep Hx. destruct (list_elem_of_split l x Hx) as (l1 & l2 & ->).
  exists l1, l2. split; [done|]. by apply rep_onEvict.
Qed.

Lemma StronglySorted_remove {A} (R : relation A) l1 x l2 :
  StronglySorted R (l1 ++ x :: l2) -> StronglySorted R (l1 ++ l2).
Proof.
  rewrite !StronglySorted_app, StronglySorted_cons.
  intros (H12 & H1 & _ & H2). split; [|done].
  intros a b Ha Hb. apply H12; set_solver.
Qed.

Lemma StronglySorted_impl {A} (R R' : relation A) l :
  (forall a b, a ∈ l -> b ∈ l -> R a b -> R' a b) ->
  StronglySorted R l -> StronglySorted R' l.
Proof.
  induction l as [|y l IH]; intros Himp Hs; [constructor|].
  rewrite StronglySorted_cons in Hs |- *. destruct Hs as [Hf Hs].
  split.
  - rewrite Forall_forall in Hf |- *. intros b Hb. apply Himp; [set_solver|set_solver|auto].
  - apply IH; [|done]. intros a b Ha Hb. apply Himp; set_solver.
Qed.

Lemma lat_upd_ne ps pg f k :
  pg <> k -> LRUTrace.lat (upd_page ps pg f) k = LRUTrace.lat ps k.
Proof. intros H. unfold LRUTrace.lat, upd_page. by rewrite lookup_alter_ne. Qed.

Lemma lat_upd_eq ps pg f p :
  ps !! pg = Some p -> LRUTrace.lat (upd_page ps pg f) pg = Page.lastAccessTime (f p).
Proof. intros H. unfold LRUTrace.lat, upd_page. by rewrite lookup_alter_eq, H. Qed.

Lemma trace_inv_start ps t0 : trace_inv (LRUTrace.start ps t0) [].
Proof.
  split; [apply rep_new|]. cbn.
  split; [intros k; set_solver|].
  split; [intros k Hk; set_solver|].
  split; [intros k Hk; set_solver|]. constructor.
Qed.

Lemma trace_inv_step w l o w' :
  trace_inv w l -> LRUTrace.step w o = Some w' -> exists l', trace_inv w' l'.
Proof.
  intros (Hrep & Hres & Hpg & Hclk & Hsort) Hstep.
  destruct o as [pg f t|pg t|pg]; cbn in Hstep.
  - case_bool_decide as Hc; [|done]. destruct Hc as (Hnr & Hle & [p Hp]).
    injection Hstep as <-. exists (pg :: l).
    assert (Hnl : pg ∉ l) by (intros H; apply Hnr, Hres, H).
    assert (Hlat : forall k, k ∈ l ->
              LRUTrace.lat (upd_page (LRUTrace.pages w) pg (fun p => Page.moveToRAM p f t)) k =
              LRUTrace.lat (LRUTrace.pages w) k).
    { intros k Hk. apply lat_upd_ne. intros ->. done. }
    assert (Hlp : LRUTrace.lat (upd_page (LRUTrace.pages w) pg (fun p => Page.moveToRAM p f t)) pg = t).
    { by rewrite (lat_upd_eq _ _ _ p). }
    split; [by apply rep_onPageLoad|]. cbn [LRUTrace.resident LRUTrace.pages LRUTrace.clock].
    split; [intros k; rewrite elem_of_cons, elem_of_union, elem_of_singleton, Hres; tauto|].
    split.
    { intros k Hk. unfold upd_page. rewrite lookup_alter_is_Some.
      apply elem_of_cons in Hk as [->|Hk]; [by exists p|auto]. }
    split.
    { intros k Hk. apply elem_of_cons in Hk as [->|Hk]; [lia|].
      rewrite Hlat by done. specialize (Hclk k Hk). lia. }
    apply StronglySorted_cons. split.
    + rewrite Forall_forall. intros b Hb. rewrite Hlat, Hlp by done.
      specialize (Hclk b Hb). lia.
    + refine (StronglySorted_impl _ _ _ _ Hsort). intros a b Ha Hb H.
      rewrite !Hlat by done. done.
  - case_bool_decide as Hc; [|done]. destruct Hc as (Hin & Hle).
    injection Hstep as <-.
    assert (Hinl : pg ∈ l) by (by apply Hres).
    destruct (Hpg pg Hinl) as [p Hp].
    destruct (rep_moveToFront _ _ _ Hrep Hinl) as (l1 & l2 & -> & Hrep').
    exists (pg :: l1 ++ l2).
    assert (Hnd : NoDup (l1 ++ pg :: l2)) by apply Hrep.
    assert (Hnl : pg ∉ l1 ++ l2).
    { apply NoDup_app in Hnd as (_ & Hd & Hnd2). apply NoDup_cons in Hnd2 as [Hx2 _].
      intros Hc. apply elem_of_app in Hc as [Hc|Hc]; [apply (Hd pg Hc); set_solver|done]. }
    assert (Hlat : forall k, k ∈ l1 ++ l2 ->
              LRUTrace.lat (upd_page (LRUTrace.pages w) pg (fun p => Page.access p t)) k =
              LRUTrace.lat (LRUTrace.pages w) k).
    { intros k Hk. apply lat_upd_ne. intros ->. done. }
    assert (Hlp : LRUTrace.lat (upd_page (LRUTrace.pages w) pg (fun p => Page.access p t)) pg = t).
    { by rewrite (lat_upd_eq _ _ _ p). }
    split; [done|]. cbn [LRUTrace.resident LRUTrace.pages LRUTrace.clock].
    split; [intros k; rewrite <- Hres; set_solver|].
    split.
    { intros k Hk. unfold upd_page. rewrite lookup_alter_is_Some. apply Hpg. set_solver. }
    split.
    { intros k Hk. apply elem_of_cons in Hk as [->|Hk]; [lia|].
      rewrite Hlat by done. assert (k ∈ l1 ++ pg :: l2) as Hk' by set_solver.
      specialize (Hclk k Hk'). lia. }
    apply StronglySorted_cons. split.
    + rewrite Forall_forall. intros b Hb. rewrite Hlat, Hlp by done.
      assert (b ∈ l1 ++ pg :: l2) as Hb' by set_solver. specialize (Hclk b Hb'). lia.
    + apply StronglySorted_remove in Hsort.
      refine (StronglySorted_impl _ _ _ _ Hsort). intros a b Ha Hb H.
      rewrite !Hlat by done. done.
  - case_bool_decide as Hin; [|done]. injection Hstep as <-.
    assert (Hinl : pg ∈ l) by (by apply Hres).
    destruct (rep_onEvict_in _ _ _ Hrep Hinl) as (l1 & l2 & -> & Hrep').
    exists (l1 ++ l2).
    assert (Hnd : NoDup (l1 ++ pg :: l2)) by apply Hrep.
    assert (Hnl : pg ∉ l1 ++ l2).
    { apply NoDup_app in Hnd as (_ & Hd & Hnd2). apply NoDup_cons in Hnd2 as [Hx2 _].
      intros Hc. apply elem_of_app in Hc as [Hc|Hc]; [apply (Hd pg Hc); set_solver|done]. }
    split; [done|]. cbn [LRUTrace.resident LRUTrace.pages LRUTrace.clock].
    split.
    { intros k. rewrite elem_of_difference, elem_of_singleton, <- Hres.
      split; [intros Hk; split; [set_solver|intros ->; done]|intros [Hk Hne]; set_solver]. }
    split; [intros k Hk; apply Hpg; set_solver|].
    split; [intros k Hk; apply Hclk; set_solver|].
    by apply StronglySorted_remove in Hsort.
Qed.

Lemma trace_inv_run w l tr w' :
  trace_inv w l -> LRUTrace.run w tr = Some w' -> exists l', trace_inv w' l'.
Proof.
  revert w l. induction tr as [|o tr IH]; intros w l Hinv Hrun; cbn in Hrun.
  - injection Hrun as <-. eauto.
  - destruct (LRUTrace.step w o) as [w1|] eqn:E; cbn in Hrun; [|done].
    destruct (trace_inv_step _ _ _ _ Hinv E) as [l1 Hl1]. eauto.
Qed.

(** C4: along any run of [LRUTrace] from a fresh [LRU] policy (loads of
    non-resident pages, accesses and evictions of resident ones, at
    non-decreasing times), whenever some page is resident the [tail] of
    the list is a resident page, [selectVictim] returns it, and its
    [lastAccessTime] is the smallest among the resident pages. *)
Theorem lru_victim_least_recent (ps : gmap nat Page.t) (t0 : Z) (tr : list LRUTrace.op)
    (w : LRUTrace.world) (ramPages : list Page.t) :
  LRUTrace.run (LRUTrace.start ps t0) tr = Some w ->
  LRUTrace.resident w <> ∅ ->
  exists v,
    LRU.selectVictim (LRUTrace.lru w) ramPages = Some v /\
    LRU.tail (LRUTrace.lru w) = Some v /\
    v ∈ LRUTrace.resident w /\
    forall q, q ∈ LRUTrace.resident w ->
      LRUTrace.lat (LRUTrace.pages w) v <= LRUTrace.lat (LRUTrace.pages w) q.
Proof.
  intros Hrun Hne.
  destruct (trace_inv_run _ _ _ _ (trace_inv_start ps t0) Hrun)
    as (l & (_ & _ & Ht & _) & Hres & _ & _ & Hsort).
  destruct (last l) as [v|] eqn:Hv.
  2:{ apply last_None in Hv as ->. exfalso. apply Hne. set_solver. }
  exists v. unfold LRU.selectVictim. rewrite Ht.
  split; [done|]. split; [done|].
  apply last_Some in Hv as [l' ->].
  split; [apply Hres; set_solver|].
  intros q Hq. apply Hres in Hq. apply elem_of_app in Hq as [Hq|Hq].
  - by apply (StronglySorted_app_1_elem_of _ l' [v] q v Hsort); [|set_solver].
  - apply list_elem_of_singleton in Hq as ->. lia.
Qed.

Lemma lru_victim_least_recent_witness :
  exists w, LRUTrace.run (LRUTrace.start lru_pages0 0) lru_trace0 = Some w /\
  LRUTrace.resident w <> ∅ /\
  exists v, LRU.selectVictim (LRUTrace.lru w) [] = Some v /\
    LRU.tail (LRUTrace.lru w) = Some v /\ v ∈ LRUTrace.resident w /\
    forall q, q ∈ LRUTrace.resident w ->
      LRUTrace.lat (LRUTrace.pages w) v <= LRUTrace.lat (LRUTrace.pages w) q.
Proof.
  destruct (LRUTrace.run (LRUTrace.start lru_pages0 0) lru_trace0) as [w|] eqn:E.
  - exists w. split; [reflexivity|].
    assert (Hne : LRUTrace.resident w <> ∅).
    { vm_compute in E. injection E as <-. vm_compute. discriminate. }
    split; [exact Hne|].
    exact (lru_victim_least_recent lru_pages0 0 lru_trace0 w [] E Hne).
  - vm_compute in E. discriminate.
Defined.

(* ================================================================== *)
(** * Further properties of the code *)

(** ** The swap pool *)

(** Proves [swap_wf] of a small concrete pool. *)
Ltac swap_wf_concrete :=
  unfold swap_wf; vm_compute;
  split; [reflexivity|]; split; [repeat constructor; set_solver|];
  split; [intros i Hi; repeat (apply elem_of_cons in Hi as [->|Hi]); [lia..|set_solver]|];
  intros i blk Hb;
  repeat (destruct i as [|i]; [injection Hb as <-; split; split; (done || set_solver || (intros Hx; apply elem_of_cons in Hx as [Hx|Hx]; [lia|set_solver]) || idtac)|]);
  done.


Lemma length_filter_compl {A} (f : A -> bool) (l : list A) :
  (length (filter (fun x => negb (f x) = true) l) + length (filter (fun x => f x = true) l))%nat
  = length l.
Proof.
  induction l as [|x l IH]; [done|]. rewrite !filter_cons.
  destruct (f x); cbn; repeat case_decide; cbn in *; try congruence; lia.
Qed.

Lemma free_list_length (L : list DiskBlock.t) (F : list nat) :
  NoDup F ->
  (forall i, i ∈ F <-> exists blk, L !! i = Some blk /\ DiskBlock.isFree blk = true) ->
  length F = length (filter (fun b => DiskBlock.isFree b = true) L).
Proof.
  revert F. induction L as [|x L IH] using rev_ind; intros F Hnd HF.
  - destruct F as [|i F]; [done|]. exfalso.
    destruct (proj1 (HF i) ltac:(set_solver)) as (? & Hl & _). done.
  - rewrite filter_app, length_app. cbn. set (n := length L).
    assert (Hlk : forall i, (L ++ [x]) !! i = if decide (i = n) then Some x
                              else L !! i).
    { intros i. case_decide as Hi.
      - subst. rewrite lookup_app_r by lia. by rewrite Nat.sub_diag.
      - destruct (decide (i < n)%nat).
        + by rewrite lookup_app_l.
        + rewrite lookup_app_r by lia. rewrite (lookup_ge_None_2 L i) by lia.
          apply lookup_ge_None_2. cbn. lia. }
    case_decide as Hx.
    + assert (HnF : n ∈ F) by (apply HF; rewrite Hlk, decide_True; eauto).
      destruct (list_elem_of_split F n HnF) as (F1 & F2 & ->).
      apply NoDup_app in Hnd as (Hnd1 & Hdis & Hnd2).
      apply NoDup_cons in Hnd2 as (Hn2 & Hnd2).
      rewrite length_app. cbn.
      rewrite <- (IH (F1 ++ F2)); [rewrite length_app; cbn; lia| |].
      * apply NoDup_app. split; [done|]. split; [|done].
        intros i Hi1 Hi2. apply (Hdis i Hi1). set_solver.
      * intros i. split.
        -- intros Hi. assert (Hne : i <> n).
           { intros ->. apply elem_of_app in Hi as [Hi|Hi].
             - apply (Hdis n Hi). set_solver.
             - done. }
           destruct (proj1 (HF i) ltac:(set_solver)) as (blk & Hb & Hf).
           rewrite Hlk, decide_False in Hb by done. eauto.
        -- intros (blk & Hb & Hf).
           assert (Hne : i <> n) by (intros ->; rewrite lookup_ge_None_2 in Hb; [done|lia]).
           assert (i ∈ F1 ++ n :: F2) by (apply HF; rewrite Hlk, decide_False by done; eauto).
           set_solver.
    + rewrite Nat.add_0_r. apply IH; [done|]. intros i. rewrite HF, Hlk.
      case_decide as Hi; [subst|done]. split.
      * intros (blk & [= <-] & Hf). done.
      * intros (blk & Hb & _). rewrite lookup_ge_None_2 in Hb; [done|lia].
Qed.

Lemma used_plus_free (s : SwapSystem.t) :
  swap_wf s ->
  (SwapSystem.getUsedCount s + length (SwapSystem.freeBlocks s))%nat = SwapSystem.blockCount s.
Proof.
  intros (Hlen & Hnd & Hrng & Hb). unfold SwapSystem.getUsedCount, DiskBlock.isOccupied.
  rewrite (free_list_length (SwapSystem.blocks s)); [|done|].
  - rewrite length_filter_compl. done.
  - intros i. split.
    + intros Hi. destruct (lookup_lt_is_Some_2 (SwapSystem.blocks s) i (Hrng i Hi)) as [blk Hl].
      exists blk. split; [done|]. by apply (Hb i blk Hl).
    + intros (blk & Hl & Hf). by apply (Hb i blk Hl).
Qed.

(** X1: in a well-formed swap system the used blocks ([getUsedCount]) and
    the free list add up to [blockCount]: [getStats] reports
    [usedBlocks + freeBlocks = totalBlocks]. *)
Theorem swap_used_plus_free (s : SwapSystem.t) :
  swap_wf s ->
  (SwapSystem.getUsedCount s + length (SwapSystem.freeBlocks s))%nat = SwapSystem.blockCount s.
Proof. apply used_plus_free. Qed.

Lemma initialize_fresh (s : SwapSystem.t) :
  SwapSystem.swapInCount s = 0%nat -> SwapSystem.swapOutCount s = 0%nat ->
  SwapSystem.ioOperations s = [] ->
  swap_fresh (SwapSystem.initialize s).
Proof.
  intros H1 H2 H3. unfold SwapSystem.initialize, swap_fresh, swap_wf; cbn.
  split; [|split; [done|split; [|done]]].
  - rewrite list_map_fmap, length_fmap, length_seq. split; [done|]. split; [apply NoDup_seq|].
    split.
    + intros i Hi. apply elem_of_seq in Hi. lia.
    + intros i blk Hl. rewrite list_lookup_fmap in Hl.
      destruct (seq 0 (SwapSystem.blockCount s) !! i) as [j|] eqn:E; [|done].
      cbn in Hl. injection Hl as <-. apply lookup_seq in E as [-> Hi].
      cbn. split; [done|]. split; [done|]. intros _. apply elem_of_seq. lia.
  - unfold SwapSystem.getUsedCount. cbn.
    induction (seq 0 (SwapSystem.blockCount s)) as [|i l IH]; [done|].
    cbn [map]. rewrite filter_cons. case_decide as Hc; [done|]. done.
Qed.

Lemma swap_used_plus_free_witness :
  swap_wf swap2_used /\
  (SwapSystem.getUsedCount swap2_used + length (SwapSystem.freeBlocks swap2_used))%nat =
    SwapSystem.blockCount swap2_used.
Proof.
  assert (H : swap_wf swap2_used) by swap_wf_concrete.
  split; [exact H | exact (swap_used_plus_free swap2_used H)].
Defined.

(** X2: [new SwapSystem(n)], [reset()] and [resize(n)] give a well-formed
    pool with every block free in id order, no used block, zero counts
    and no I/O history; [reset] keeps [blockCount], [resize] sets it. *)
Theorem swap_fresh_states (s : SwapSystem.t) (n : nat) :
  swap_fresh (SwapSystem.new n) /\ SwapSystem.blockCount (SwapSystem.new n) = n /\
  swap_fresh (SwapSystem.reset s) /\
  SwapSystem.blockCount (SwapSystem.reset s) = SwapSystem.blockCount s /\
  swap_fresh (SwapSystem.resize s n) /\ SwapSystem.blockCount (SwapSystem.resize s n) = n.
Proof.
  split; [by apply initialize_fresh|]. split; [done|].
  split; [by apply initialize_fresh|]. split; [done|].
  split; [by apply initialize_fresh|]. done.
Qed.

(** X4: [allocateBlock] keeps a pool well formed. When it returns block
    [i], [i] was the head of the free list, the block now holds the page,
    no other block changes, the used count and [swapOutCount] go up by
    one and the page is moved to disk at block [i]. *)
Theorem allocateBlock_wf (s : SwapSystem.t) (pages : gmap nat Page.t) (pg : nat) (now : Z) :
  swap_wf s ->
  let '(b, s', pages') := SwapSystem.allocateBlock s pages pg now in
  swap_wf s' /\
  match b with
  | None => SwapSystem.freeBlocks s = [] /\ s' = s /\ pages' = pages
  | Some i =>
      SwapSystem.freeBlocks s = i :: SwapSystem.freeBlocks s' /\
      (SwapSystem.blocks s' !! i) ≫= DiskBlock.page = Some pg /\
      (forall j, j <> i -> SwapSystem.blocks s' !! j = SwapSystem.blocks s !! j) /\
      SwapSystem.getUsedCount s' = S (SwapSystem.getUsedCount s) /\
      SwapSystem.swapOutCount s' = S (SwapSystem.swapOutCount s) /\
      pages' = upd_page pages pg (fun p => Page.moveToDisk p i)
  end.
Proof.
  intros Hwf. pose proof Hwf as Hwf0. unfold SwapSystem.allocateBlock.
  destruct (SwapSystem.freeBlocks s) as [|b rest] eqn:Efb; [done|].
  destruct Hwf as (Hlen & Hnd & Hrng & Hb). rewrite Efb in Hnd, Hrng, Hb.
  apply NoDup_cons in Hnd as [Hbr Hnd].
  assert (Hbl : (b < length (SwapSystem.blocks s))%nat) by (apply Hrng; set_solver).
  destruct (lookup_lt_is_Some_2 _ _ Hbl) as [blk Hblk].
  set (s1 := SwapSystem.mk _ _ _ _ _ _ _).
  assert (Hwf' : swap_wf s1).
  { unfold swap_wf, s1; cbn. rewrite length_alter. split; [done|]. split; [done|].
    split; [intros i Hi; apply Hrng; set_solver|].
    intros i blk' Hl.
    destruct (decide (i = b)) as [->|Hne].
    - rewrite list_lookup_alter, decide_True, Hblk in Hl by done. cbn in Hl. injection Hl as <-. cbn. split; [done|].
      split; [done|]. intros Hi. done.
    - rewrite list_lookup_alter_ne in Hl by done.
      destruct (Hb i blk' Hl) as [H1 H2]. split; [done|]. rewrite <- H2. set_solver. }
  split; [exact Hwf'|].
  split; [done|]. split.
  { cbn. rewrite list_lookup_alter, decide_True, Hblk by done. done. }
  split.
  { intros j Hj. cbn. by rewrite list_lookup_alter_ne. }
  split; [|done].
  pose proof (used_plus_free s Hwf0) as Hu.
  pose proof (used_plus_free (SwapSystem.recordIO s1 IOOut now) Hwf') as Hu'.
  rewrite Efb in Hu. cbn in Hu, Hu'. unfold SwapSystem.getUsedCount in *. cbn in *. lia.
Qed.

Lemma allocateBlock_wf_witness :
  swap_wf swap2 /\
  (let '(b, s', pages') := SwapSystem.allocateBlock swap2 ∅ 5 0 in
   swap_wf s' /\
   match b with
   | None => SwapSystem.freeBlocks swap2 = [] /\ s' = swap2 /\ pages' = ∅
   | Some i =>
       SwapSystem.freeBlocks swap2 = i :: SwapSystem.freeBlocks s' /\
       (SwapSystem.blocks s' !! i) ≫= DiskBlock.page = Some 5%nat /\
       (forall j, j <> i -> SwapSystem.blocks s' !! j = SwapSystem.blocks swap2 !! j) /\
       SwapSystem.getUsedCount s' = S (SwapSystem.getUsedCount swap2) /\
       SwapSystem.swapOutCount s' = S (SwapSystem.swapOutCount swap2) /\
       pages' = upd_page ∅ 5 (fun p => Page.moveToDisk p i)
   end).
Proof.
  assert (H : swap_wf swap2) by swap_wf_concrete.
  split; [exact H | exact (allocateBlock_wf swap2 ∅ 5 0 H)].
Defined.

(** X5: [freeBlock] of an occupied block keeps the pool well formed: the
    block is freed and appended to the free list, no other block changes,
    the used count goes down and [swapInCount] up by one. *)
Theorem freeBlock_occupied_wf (s : SwapSystem.t) (b : nat) (blk : DiskBlock.t) (now : Z) :
  swap_wf s -> SwapSystem.blocks s !! b = Some blk -> DiskBlock.isFree blk = false ->
  let s' := SwapSystem.freeBlock s b now in
  swap_wf s' /\
  SwapSystem.freeBlocks s' = SwapSystem.freeBlocks s ++ [b] /\
  SwapSystem.blocks s' !! b = Some (DiskBlock.free blk) /\
  (forall j, j <> b -> SwapSystem.blocks s' !! j = SwapSystem.blocks s !! j) /\
  S (SwapSystem.getUsedCount s') = SwapSystem.getUsedCount s /\
  SwapSystem.swapInCount s' = S (SwapSystem.swapInCount s).
Proof.
  intros Hwf Hblk Hfree s'. pose proof Hwf as Hwf0.
  destruct Hwf as (Hlen & Hnd & Hrng & Hb).
  assert (Hbn : b ∉ SwapSystem.freeBlocks s).
  { intros Hi. apply (Hb b blk Hblk) in Hi. congruence. }
  assert (Hbl : (b < length (SwapSystem.blocks s))%nat) by (by apply lookup_lt_Some in Hblk).
  assert (Hwf' : swap_wf s').
  { unfold s', SwapSystem.freeBlock. rewrite Hblk. unfold swap_wf; cbn.
    rewrite length_alter. split; [done|]. split.
    { apply NoDup_app. split; [done|]. split; [|apply NoDup_singleton].
      intros i Hi Hi'. apply list_elem_of_singleton in Hi'. congruence. }
    split; [intros i Hi; apply elem_of_app in Hi as [Hi|Hi]; [by apply Hrng|];
            apply list_elem_of_singleton in Hi; lia|].
    intros i blk' Hl. destruct (decide (i = b)) as [->|Hne].
    - rewrite list_lookup_alter, decide_True, Hblk in Hl by done. injection Hl as <-.
      cbn. split; [done|]. split; [done|]. intros _. set_solver.
    - rewrite list_lookup_alter, decide_False in Hl by congruence.
      destruct (Hb i blk' Hl) as [H1 H2]. split; [done|]. rewrite <- H2.
      rewrite elem_of_app, list_elem_of_singleton. intuition. }
  split; [exact Hwf'|].
  pose proof (used_plus_free s Hwf0) as Hu.
  pose proof (used_plus_free _ Hwf') as Hu'.
  subst s'. unfold SwapSystem.freeBlock in *. rewrite Hblk in *. cbn.
  split; [done|]. split; [by rewrite list_lookup_alter, decide_True, Hblk|].
  split; [intros j Hj; rewrite list_lookup_alter, decide_False by congruence; done|].
  split; [|done].
  unfold SwapSystem.getUsedCount in *. cbn in *. rewrite ?length_app in *.
  cbn in Hu'. lia.
Qed.

Lemma freeBlock_occupied_wf_witness :
  swap_wf swap2_used /\ SwapSystem.blocks swap2_used !! 0%nat = Some blk0_used /\
  DiskBlock.isFree blk0_used = false /\
  (let s' := SwapSystem.freeBlock swap2_used 0 1 in
   swap_wf s' /\
   SwapSystem.freeBlocks s' = SwapSystem.freeBlocks swap2_used ++ [0%nat] /\
   SwapSystem.blocks s' !! 0%nat = Some (DiskBlock.free blk0_used) /\
   (forall j, j <> 0%nat -> SwapSystem.blocks s' !! j = SwapSystem.blocks swap2_used !! j) /\
   S (SwapSystem.getUsedCount s') = SwapSystem.getUsedCount swap2_used /\
   SwapSystem.swapInCount s' = S (SwapSystem.swapInCount swap2_used)).
Proof.
  assert (H : swap_wf swap2_used) by swap_wf_concrete.
  assert (Hb : SwapSystem.blocks swap2_used !! 0%nat = Some blk0_used) by (vm_compute; reflexivity).
  assert (Hf : DiskBlock.isFree blk0_used = false) by reflexivity.
  split; [exact H|]. split; [exact Hb|]. split; [exact Hf|].
  exact (freeBlock_occupied_wf swap2_used 0 blk0_used 1 H Hb Hf).
Defined.

(** X6: [freeBlock] does not check that the block is taken: freeing a
    block that is already free appends it to the free list a second time
    and counts a swap-in, so the free list has a duplicate. *)
Theorem freeBlock_double_free (s : SwapSystem.t) (b : nat) (now : Z) :
  (b < length (SwapSystem.blocks s))%nat -> b ∈ SwapSystem.freeBlocks s ->
  let s' := SwapSystem.freeBlock s b now in
  SwapSystem.freeBlocks s' = SwapSystem.freeBlocks s ++ [b] /\
  SwapSystem.swapInCount s' = S (SwapSystem.swapInCount s) /\
  ~ NoDup (SwapSystem.freeBlocks s').
Proof.
  intros Hbl Hin s'. destruct (lookup_lt_is_Some_2 _ _ Hbl) as [blk Hblk].
  unfold s', SwapSystem.freeBlock. rewrite Hblk. cbn.
  split; [done|]. split; [done|].
  intros Hnd. apply NoDup_app in Hnd as (_ & Hdis & _).
  apply (Hdis b Hin). set_solver.
Qed.

Lemma freeBlock_double_free_witness :
  (1 < length (SwapSystem.blocks swap2_used))%nat /\ 1%nat ∈ SwapSystem.freeBlocks swap2_used /\
  (let s' := SwapSystem.freeBlock swap2_used 1 1 in
   SwapSystem.freeBlocks s' = SwapSystem.freeBlocks swap2_used ++ [1%nat] /\
   SwapSystem.swapInCount s' = S (SwapSystem.swapInCount swap2_used) /\
   ~ NoDup (SwapSystem.freeBlocks s')).
Proof.
  assert (H1 : (1 < length (SwapSystem.blocks swap2_used))%nat) by (vm_compute; lia).
  assert (H2 : 1%nat ∈ SwapSystem.freeBlocks swap2_used) by (vm_compute; set_solver).
  split; [exact H1|]. split; [exact H2|].
  exact (freeBlock_double_free swap2_used 1 1 H1 H2).
Defined.

(** ** The replacement policies *)

Lemma filter_ne_out (l : list nat) (x : nat) :
  x ∉ l -> filter (fun y => y <> x) l = l.
Proof.
  induction l as [|y l IH]; intros H; [done|].
  rewrite filter_cons, decide_True by set_solver. f_equal. apply IH. set_solver.
Qed.

Lemma filter_ne_split (l1 l2 : list nat) (x : nat) :
  x ∉ l1 -> x ∉ l2 -> filter (fun y => y <> x) (l1 ++ x :: l2) = l1 ++ l2.
Proof.
  intros H1 H2. rewrite filter_app, filter_cons, decide_False by congruence.
  by rewrite !filter_ne_out.
Qed.

Lemma rep_split_dup s l1 x l2 :
  lru_rep s (l1 ++ x :: l2) -> (x ∉ l1) /\ (x ∉ l2).
Proof.
  intros (Hnd & _). apply NoDup_app in Hnd as (_ & Hdis & Hnd).
  apply NoDup_cons in Hnd as [Hx _]. split; [|done].
  intros Hx1. apply (Hdis x Hx1). set_solver.
Qed.

Lemma rep_moveToFront_any s l x :
  lru_rep s l -> lru_rep (LRU.moveToFront s x) (x :: filter (fun y => y <> x) l).
Proof.
  intros Hrep. destruct (decide (x ∈ l)) as [Hin|Hout].
  - destruct (rep_moveToFront s l x Hrep Hin) as (l1 & l2 & -> & Hr).
    destruct (rep_split_dup s l1 x l2 Hrep). by rewrite filter_ne_split.
  - rewrite filter_ne_out by done. unfold LRU.moveToFront.
    destruct (LRU.nodeMap s !! x) eqn:E.
    + exfalso. apply Hout, (rep_elem s _ x Hrep). by rewrite E.
    + by apply rep_addToFront_fresh.
Qed.

Lemma rep_onPageLoad_any s l x :
  lru_rep s l -> lru_rep (LRU.onPageLoad s x) (x :: filter (fun y => y <> x) l).
Proof.
  intros Hrep. unfold LRU.onPageLoad, LRU.addToFront.
  destruct (LRU.nodeMap s !! x) eqn:E.
  - by apply rep_moveToFront_any.
  - assert (Hout : x ∉ l) by (intros Hin; apply (rep_elem s _ x Hrep) in Hin;
                               rewrite E in Hin; by destruct Hin).
    rewrite filter_ne_out by done. by apply rep_addToFront_fresh.
Qed.

Lemma rep_onEvict_any s l x :
  lru_rep s l -> lru_rep (LRU.onEvict s x) (filter (fun y => y <> x) l).
Proof.
  intros Hrep. destruct (decide (x ∈ l)) as [Hin|Hout].
  - destruct (rep_onEvict_in s l x Hrep Hin) as (l1 & l2 & -> & Hr).
    destruct (rep_split_dup s l1 x l2 Hrep). by rewrite filter_ne_split.
  - rewrite filter_ne_out by done. unfold LRU.onEvict.
    destruct (LRU.nodeMap s !! x) eqn:E; [|done].
    exfalso. apply Hout, (rep_elem s _ x Hrep). by rewrite E.
Qed.

Lemma reach_rep s : lru_reach s -> exists l, lru_rep s l.
Proof.
  induction 1 as [|s x _ [l IH]|s ps x t _ [l IH]|s x _ [l IH]].
  - exists []. apply rep_new.
  - eexists. by apply rep_onPageLoad_any.
  - eexists. by apply rep_moveToFront_any.
  - eexists. by apply rep_onEvict_any.
Qed.

Lemma rep_size s l : lru_rep s l -> size (LRU.nodeMap s) = length l.
Proof.
  intros Hrep. pose proof Hrep as (Hnd & _).
  assert (Hd : dom (LRU.nodeMap s) = list_to_set l).
  { apply set_eq. intros k. rewrite elem_of_dom, elem_of_list_to_set.
    by apply rep_elem. }
  rewrite <- size_dom, Hd. by apply size_list_to_set.
Qed.

Lemma walk_suffix m pre suf fuel :
  NoDup (pre ++ suf) -> (forall k, m !! k = node_at (pre ++ suf) k) ->
  (length suf <= fuel)%nat -> LRU.walk m (head suf) fuel = suf.
Proof.
  revert pre fuel. induction suf as [|k r IH]; intros pre fuel Hnd Hm Hf.
  - by destruct fuel.
  - destruct fuel as [|f]; [cbn in Hf; lia|]. cbn [head LRU.walk].
    f_equal. 
    assert (Hk : k ∉ pre).
    { apply NoDup_app in Hnd as (_ & Hdis & _). intros Hk. apply (Hdis k Hk). set_solver. }
    assert (Hn : LRU.get_next m k = head r).
    { unfold LRU.get_next. rewrite Hm, node_at_in by set_solver. cbn.
      rewrite nxt_app, decide_False by done. cbn. by rewrite decide_True. }
    rewrite Hn. apply (IH (pre ++ [k])); rewrite <- ?app_assoc; try done. cbn in Hf. lia.
Qed.

Lemma rep_getOrder s l : lru_rep s l -> LRU.getOrder s = l.
Proof.
  intros Hrep. pose proof Hrep as (Hnd & Hh & _ & Hm).
  unfold LRU.getOrder. rewrite Hh, (rep_size s l Hrep).
  apply (walk_suffix _ []); [done|done|lia].
Qed.

Lemma fifo_onEvict_filter q x :
  NoDup q -> FIFO.onEvict q x = filter (fun y => y <> x) q.
Proof.
  intros Hnd. unfold FIFO.onEvict.
  destruct (list_find (fun y => y = x) q) as [[i y]|] eqn:E.
  - apply list_find_Some in E as (Hl & -> & _).
    pose proof (take_drop_middle q i x Hl) as Hq.
    assert (Hlen : length (take i q) = i)
      by (rewrite length_take; apply lookup_lt_Some in Hl; lia).
    set (l1 := take i q) in *. set (l2 := drop (S i) q) in *.
    rewrite <- Hq in Hnd |- *.
    apply NoDup_app in Hnd as (_ & Hdis & Hnd2). apply NoDup_cons in Hnd2 as [Hx _].
    rewrite filter_ne_split; [done| |done].
    intros Hx1. apply (Hdis x Hx1). set_solver.
  - apply list_find_None in E. rewrite filter_ne_out; [done|].
    intros Hin. rewrite Forall_forall in E. by apply (E x Hin).
Qed.

Lemma fifo_reach_nodup q : fifo_reach q -> NoDup q.
Proof.
  induction 1 as [|q ps pg ts _ IH|q pg _ IH].
  - constructor.
  - unfold FIFO.onPageLoad. cbn. case_bool_decide; [done|].
    apply NoDup_app. split; [done|]. split; [|apply NoDup_singleton].
    intros y Hy Hy'. apply list_elem_of_singleton in Hy'. subst; done.
  - rewrite fifo_onEvict_filter by done. by apply NoDup_filter.
Qed.

(** X8: after any sequence of [onPageLoad], [onPageAccess] and [onEvict]
    calls on a new [LRU], [getOrder()] lists each tracked page once, the
    head and tail are its first and last entries, [nodeMap] holds exactly
    its pages, and [selectVictim] returns its last page, scanning
    [ramPages] only when the list is empty. *)
Theorem lru_list_well_formed (s : LRU.t) (ramPages : list Page.t) :
  lru_reach s ->
  NoDup (LRU.getOrder s) /\
  LRU.head s = head (LRU.getOrder s) /\ LRU.tail s = last (LRU.getOrder s) /\
  (forall k, is_Some (LRU.nodeMap s !! k) <-> k ∈ LRU.getOrder s) /\
  LRU.selectVictim s ramPages =
    match last (LRU.getOrder s) with
    | Some k => Some k
    | None => Page.id <$> scan_min Page.lastAccessTime ramPages
    end.
Proof.
  intros Hr. destruct (reach_rep s Hr) as [l Hrep].
  rewrite (rep_getOrder s l Hrep). pose proof Hrep as (Hnd & Hh & Ht & _).
  split; [done|]. split; [done|]. split; [done|].
  split; [intros k; by apply rep_elem|].
  unfold LRU.selectVictim. by rewrite Ht.
Qed.

Lemma lru_list_well_formed_witness :
  lru_reach lru_sample /\
  NoDup (LRU.getOrder lru_sample) /\
  LRU.head lru_sample = head (LRU.getOrder lru_sample) /\
  LRU.tail lru_sample = last (LRU.getOrder lru_sample) /\
  (forall k, is_Some (LRU.nodeMap lru_sample !! k) <-> k ∈ LRU.getOrder lru_sample) /\
  LRU.selectVictim lru_sample [] =
    match last (LRU.getOrder lru_sample) with
    | Some k => Some k
    | None => Page.id <$> scan_min Page.lastAccessTime []
    end.
Proof.
  split; [unfold lru_sample; repeat constructor|].
  apply (lru_list_well_formed lru_sample []). unfold lru_sample; repeat constructor.
Defined.


(** X9: on a reachable [LRU], [onPageLoad] and [onPageAccess] of a page
    put it first in [getOrder()] and keep the order of the other pages,
    whether or not the page was tracked before. *)
Theorem lru_load_access_move_to_front (s : LRU.t) (ps : gmap nat Page.t) (x : nat) (t : Z) :
  lru_reach s ->
  LRU.getOrder (LRU.onPageLoad s x) = x :: filter (fun y => y <> x) (LRU.getOrder s) /\
  LRU.getOrder (LRU.onPageAccess s ps x t).1 = x :: filter (fun y => y <> x) (LRU.getOrder s).
Proof.
  intros Hr. destruct (reach_rep s Hr) as [l Hrep].
  rewrite (rep_getOrder s l Hrep). split.
  - by apply rep_getOrder, rep_onPageLoad_any.
  - by apply rep_getOrder, rep_moveToFront_any.
Qed.

Lemma lru_load_access_move_to_front_witness :
  lru_reach lru_sample /\
  LRU.getOrder (LRU.onPageLoad lru_sample 1) = 1%nat :: filter (fun y => y <> 1%nat) (LRU.getOrder lru_sample) /\
  LRU.getOrder (LRU.onPageAccess lru_sample ∅ 1 0).1 =
    1%nat :: filter (fun y => y <> 1%nat) (LRU.getOrder lru_sample).
Proof.
  split; [unfold lru_sample; repeat constructor|].
  apply (lru_load_access_move_to_front lru_sample ∅ 1 0). unfold lru_sample; repeat constructor.
Defined.


(** X10: on a reachable [LRU], [onEvict] of a page removes it from
    [getOrder()] and keeps the order of the others; an untracked page
    changes nothing. *)
Theorem lru_onEvict_removes (s : LRU.t) (x : nat) :
  lru_reach s ->
  LRU.getOrder (LRU.onEvict s x) = filter (fun y => y <> x) (LRU.getOrder s).
Proof.
  intros Hr. destruct (reach_rep s Hr) as [l Hrep].
  rewrite (rep_getOrder s l Hrep). by apply rep_getOrder, rep_onEvict_any.
Qed.

Lemma lru_onEvict_removes_witness :
  lru_reach lru_sample /\
  LRU.getOrder (LRU.onEvict lru_sample 3) = filter (fun y => y <> 3%nat) (LRU.getOrder lru_sample).
Proof.
  split; [unfold lru_sample; repeat constructor|].
  apply (lru_onEvict_removes lru_sample 3). unfold lru_sample; repeat constructor.
Defined.


(** X11: the FIFO queue built by [onPageLoad] and [onEvict] never holds a
    page twice, and [onEvict] removes the page from it entirely. *)
Theorem fifo_queue_no_duplicates (q : FIFO.t) (x : nat) :
  fifo_reach q ->
  NoDup q /\ FIFO.onEvict q x = filter (fun y => y <> x) q.
Proof.
  intros Hr. pose proof (fifo_reach_nodup q Hr) as Hnd.
  split; [done|]. by apply fifo_onEvict_filter.
Qed.

Lemma fifo_queue_no_duplicates_witness :
  fifo_reach fifo_sample /\
  NoDup fifo_sample /\ FIFO.onEvict fifo_sample 2 = filter (fun y => y <> 2%nat) fifo_sample.
Proof.
  split; [unfold fifo_sample; repeat constructor|].
  apply (fifo_queue_no_duplicates fifo_sample 2). unfold fifo_sample; repeat constructor.
Defined.


(** ** The engine *)

(** X12: [updateConfig] with a new [swapBlocks] value resets the engine
    but does not resize the swap pool: [config.swapBlocks] takes the new
    value while the pool keeps its old [blockCount] and number of blocks
    ([reset] calls [swapSystem.reset()], not [resize]); the frames, by
    contrast, are recreated for [config.ramFrames]. *)
Theorem updateConfig_swapBlocks_pool_not_resized (n : Engine.newConfig) (s : Engine.t) (m : nat) :
  Engine.nc_swapBlocks n = Some m -> m <> Engine.swapBlocks (Engine.cfg s) ->
  let s' := Engine.run (Engine.updateConfig n) s in
  Engine.swapBlocks (Engine.cfg s') = m /\
  SwapSystem.blockCount (Engine.swapSystem s') = SwapSystem.blockCount (Engine.swapSystem s) /\
  length (SwapSystem.blocks (Engine.swapSystem s')) = SwapSystem.blockCount (Engine.swapSystem s) /\
  length (Engine.frames s') = Engine.ramFrames (Engine.cfg s').
Proof.
  intros Hm Hne. cbv zeta. rewrite updateConfig_eq. cbv zeta.
  assert (Hr : negb (bool_decide (Engine.nc_ramFrames n = Some (Engine.ramFrames (Engine.cfg s))))
            || negb (bool_decide (Engine.nc_swapBlocks n = Some (Engine.swapBlocks (Engine.cfg s))))
            = true).
  { rewrite Hm, (bool_decide_eq_false_2 (Some m = _)) by congruence. apply orb_true_r. }
  rewrite Hr. unfold Engine.reset, Engine.setPolicy, Engine.initializeFrames. unfold_M.
  cbn.
  destruct (Engine.nc_policy n) as [name|]; [destruct (decide (name = ""%string))|];
    cbn; rewrite ?length_map, ?length_seq; repeat split; by rewrite ?Hm.
Qed.

Lemma updateConfig_swapBlocks_pool_not_resized_witness :
  Engine.nc_swapBlocks swap_only_config = Some 10%nat /\
  10%nat <> Engine.swapBlocks (Engine.cfg small_engine) /\
  (let s' := Engine.run (Engine.updateConfig swap_only_config) small_engine in
   Engine.swapBlocks (Engine.cfg s') = 10%nat /\
   SwapSystem.blockCount (Engine.swapSystem s') = SwapSystem.blockCount (Engine.swapSystem small_engine) /\
   length (SwapSystem.blocks (Engine.swapSystem s')) = SwapSystem.blockCount (Engine.swapSystem small_engine) /\
   length (Engine.frames s') = Engine.ramFrames (Engine.cfg s')).
Proof.
  assert (H1 : Engine.nc_swapBlocks swap_only_config = Some 10%nat) by reflexivity.
  assert (H2 : 10%nat <> Engine.swapBlocks (Engine.cfg small_engine)) by (vm_compute; lia).
  split; [exact H1|]. split; [exact H2|].
  exact (updateConfig_swapBlocks_pool_not_resized swap_only_config small_engine 10 H1 H2).
Defined.


Lemma run_bind {A B} (c : Engine.M A) (f : A -> Engine.M B) (s : Engine.t) :
  Engine.run (c ≫= f) s = Engine.run (f (c s).1.1) (Engine.run c s).
Proof.
  unfold Engine.run. rewrite bind_eq. destruct (c s) as [[a s1] e1].
  cbn. destruct (f a s1) as [[b s2] e2]. done.
Qed.

Lemma keeps_bind {A B} (c : Engine.M A) (f : A -> Engine.M B) :
  keeps c -> (forall a, keeps (f a)) -> keeps (c ≫= f).
Proof. intros Hc Hf s. rewrite run_bind, Hf. apply Hc. Qed.

Lemma keeps_ret {A} (a : A) : keeps (mret a).
Proof. intros s. done. Qed.

Lemma keeps_get : keeps Engine.get.
Proof. intros s. done. Qed.

Lemma keeps_emit e : keeps (Engine.emit e).
Proof. intros s. done. Qed.

Lemma keeps_modify f : (forall s, frozen (f s) = frozen s) -> keeps (Engine.modify f).
Proof. intros H s. apply H. Qed.

(** Proves [keeps] of a program built from [get], [modify] of a field
    outside [frozen], [emit] and [mret]. *)
Ltac keeps_tac :=
  repeat match goal with
  | |- keeps (_ ≫= _) => apply keeps_bind; [|intros ?]
  | |- keeps (Engine.modify _) => apply keeps_modify; intros ?; reflexivity
  | |- keeps (mret _) => apply keeps_ret
  | |- keeps Engine.get => apply keeps_get
  | |- keeps (Engine.emit _) => apply keeps_emit
  | |- keeps (match ?x with _ => _ end) => destruct x
  end.

Lemma keeps_allocatePageToFrame pg : keeps (Engine.allocatePageToFrame pg).
Proof. unfold Engine.allocatePageToFrame. keeps_tac. Qed.

Lemma keeps_swapAllocate pg now : keeps (Engine.swapAllocate pg now).
Proof. unfold Engine.swapAllocate. keeps_tac. Qed.

Lemma keeps_checkThrashing now : keeps (Engine.checkThrashing now).
Proof. unfold Engine.checkThrashing. keeps_tac. Qed.

Lemma keeps_evictPage now : keeps (Engine.evictPage now).
Proof.
  unfold Engine.evictPage. keeps_tac; apply keeps_swapAllocate.
Qed.

Lemma frozen_handlePageFault pg now s :
  frozen (Engine.run (Engine.handlePageFault pg now) s) =
  (Engine.memoryAccesses (Engine.st s), Engine.hitCount (Engine.st s),
   S (Engine.totalPageFaults (Engine.st s)), Engine.simulationTime s, Engine.cfg s).
Proof.
  unfold Engine.handlePageFault. rewrite run_bind.
  match goal with |- frozen (Engine.run ?c _) = _ => assert (Hk : keeps c) end.
  { keeps_tac; try apply keeps_evictPage; try apply keeps_allocatePageToFrame;
      apply keeps_checkThrashing. }
  rewrite Hk. reflexivity.
Qed.

Lemma frozen_accessPage page now s :
  frozen (Engine.run (Engine.accessPage page now) s) =
  let '(ma, hc, tf, t, c) := frozen s in
  match page ≫= fun pg => Engine.allPages s !! pg with
  | None => (ma, hc, tf, t, c)
  | Some p => if decide (Page.location p = LRam) then (S ma, S hc, tf, t, c)
              else (S ma, hc, S tf, t, c)
  end.
Proof.
  destruct page as [pg|]; [|reflexivity]. cbn [mbind option_bind].
  unfold Engine.accessPage. rewrite run_bind. cbn [Engine.get fst].
  destruct (Engine.allPages s !! pg) as [p|] eqn:E; [|reflexivity].
  rewrite !run_bind. cbn [Engine.modify fst Engine.run snd].
  destruct (decide (Page.location p = LRam)).
  - rewrite run_bind.
    match goal with |- frozen (Engine.run ?c _) = _ => assert (Hk : keeps c) end.
    { keeps_tac. }
    rewrite Hk. reflexivity.
  - rewrite frozen_handlePageFault. reflexivity.
Qed.

Lemma accessPage_counts page now s :
  counts_ok s -> counts_ok (Engine.run (Engine.accessPage page now) s).
Proof.
  unfold counts_ok. pose proof (frozen_accessPage page now s) as H.
  unfold frozen in *. 
  destruct (page ≫= _) as [p|]; [destruct (decide _)|]; injection H; intros; lia.
Qed.

Lemma accessPage_time page now s :
  Engine.simulationTime (Engine.run (Engine.accessPage page now) s) = Engine.simulationTime s /\
  Engine.cfg (Engine.run (Engine.accessPage page now) s) = Engine.cfg s.
Proof.
  pose proof (frozen_accessPage page now s) as H. unfold frozen in *.
  destruct (page ≫= _) as [p|]; [destruct (decide _)|]; injection H; intros; done.
Qed.

Lemma accesses_effect (accs : list (option nat)) now s :
  let s' := Engine.run (foldr (fun a k => Engine.accessPage a now ;; k) (mret tt) accs) s in
  Engine.simulationTime s' = Engine.simulationTime s /\ Engine.cfg s' = Engine.cfg s /\
  (counts_ok s -> counts_ok s').
Proof.
  revert s. induction accs as [|a accs IH]; intros s; [done|].
  cbn [foldr]. cbv zeta. rewrite run_bind.
  destruct (IH (Engine.run (Engine.accessPage a now) s)) as (H1 & H2 & H3).
  destruct (accessPage_time a now s) as [H4 H5].
  split; [congruence|]. split; [congruence|].
  intros Hc. apply H3, accessPage_counts, Hc.
Qed.

Lemma step_effect (accs : list (option nat)) (now : Z) (s : Engine.t) :
  let s' := Engine.run (Engine.step accs now) s in
  Engine.simulationTime s' = Engine.simulationTime s + Engine.accessInterval (Engine.cfg s) /\
  Engine.cfg s' = Engine.cfg s /\
  (counts_ok s -> counts_ok s') /\
  exists es, Engine.events (Engine.step accs now) s = es ++ [EvSimulationStep; EvStatsUpdate].
Proof.
  cbv zeta. unfold Engine.step.
  set (c := foldr _ _ accs).
  destruct (accesses_effect accs now s) as (H1 & H2 & H3). fold c in H1, H2, H3.
  unfold Engine.run, Engine.events in *. rewrite !bind_eq.
  destruct (c s) as [[u s1] e1]. cbn in H1, H2, H3 |- *.
  unfold mbind, Engine.M_bind, Engine.modify, Engine.emit. cbn -[Engine.checkThrashing].
  pose proof (keeps_checkThrashing now
                (Engine.set_simulationTime s1 (Engine.simulationTime s1 + Engine.accessInterval (Engine.cfg s1)))) as Hk.
  unfold Engine.run, frozen in Hk. cbn in Hk.
  destruct (Engine.checkThrashing now _) as [[v s2] e2]. cbn in Hk |- *.
  injection Hk as Hk1 Hk2 Hk3 Hk4 Hk5.
  split; [rewrite Hk4, H1, H2; done|]. split; [congruence|]. split.
  - intros Hc. specialize (H3 Hc). unfold counts_ok in *. rewrite Hk1, Hk2, Hk3. exact H3.
  - exists (e1 ++ e2). rewrite <- !app_assoc. done.
Qed.

(** X13: [step] advances [simulationTime] by exactly
    [config.accessInterval] whatever the batch of accesses, leaves the
    configuration alone, and its last two notifications are
    [onSimulationStep] then [onStatsUpdate]. *)
Theorem step_advances_clock (accs : list (option nat)) (now : Z) (s : Engine.t) :
  let s' := Engine.run (Engine.step accs now) s in
  Engine.simulationTime s' = Engine.simulationTime s + Engine.accessInterval (Engine.cfg s) /\
  Engine.cfg s' = Engine.cfg s /\
  exists es, Engine.events (Engine.step accs now) s = es ++ [EvSimulationStep; EvStatsUpdate].
Proof.
  destruct (step_effect accs now s) as (H1 & H2 & _ & H4). done.
Qed.

Lemma keeps_allocateInitialPages pgs now : keeps (Engine.allocateInitialPages pgs now).
Proof.
  induction pgs as [|pg pgs IH]; cbn [Engine.allocateInitialPages]; [apply keeps_ret|].
  keeps_tac; try apply IH; try apply keeps_allocatePageToFrame; apply keeps_swapAllocate.
Qed.

Lemma keeps_addProcess name n now : keeps (Engine.addProcess name n now).
Proof.
  unfold Engine.addProcess. keeps_tac. apply keeps_allocateInitialPages.
Qed.

Lemma st_setPolicy name s : Engine.st (Engine.run (Engine.setPolicy name) s) = Engine.st s.
Proof. reflexivity. Qed.

Lemma st_reset s : Engine.st (Engine.run Engine.reset s) = Engine.stats0.
Proof. reflexivity. Qed.

(** X14: in every engine reached from [new SimulationEngine()] through
    [addProcess], [accessPage], [step], [updateConfig], [setPolicy] and
    [reset], each counted memory access was counted either as a hit or
    as a page fault: [memoryAccesses = hitCount + totalPageFaults]. *)
Theorem accesses_are_hits_or_faults (s : Engine.t) :
  engine_reach s ->
  Engine.memoryAccesses (Engine.st s) =
    (Engine.hitCount (Engine.st s) + Engine.totalPageFaults (Engine.st s))%nat.
Proof.
  induction 1 as [|s name n now _ IH|s page now _ IH|s accs now _ IH|s n _ IH|s name _ IH|s _ IH].
  - reflexivity.
  - pose proof (keeps_addProcess name n now s) as Hk. unfold frozen in Hk.
    injection Hk as H1 H2 H3 _ _. lia.
  - by apply accessPage_counts.
  - by apply step_effect.
  - rewrite updateConfig_eq. cbv zeta.
    destruct (negb _ || negb _); [|destruct (Engine.nc_policy n) as [nm|];
      [destruct (decide _)|]; rewrite ?st_setPolicy; exact IH].
    destruct (Engine.nc_policy n) as [nm|]; [destruct (decide _)|];
      rewrite ?st_setPolicy, st_reset; reflexivity.
  - rewrite st_setPolicy. exact IH.
  - rewrite st_reset. reflexivity.
Qed.

Lemma accesses_are_hits_or_faults_witness :
  engine_reach (Engine.run (Engine.accessPage (Some 0%nat) 0) small_engine) /\
  Engine.memoryAccesses (Engine.st (Engine.run (Engine.accessPage (Some 0%nat) 0) small_engine)) =
    (Engine.hitCount (Engine.st (Engine.run (Engine.accessPage (Some 0%nat) 0) small_engine)) +
     Engine.totalPageFaults (Engine.st (Engine.run (Engine.accessPage (Some 0%nat) 0) small_engine)))%nat.
Proof.
  assert (H : engine_reach (Engine.run (Engine.accessPage (Some 0%nat) 0) small_engine))
    by (apply ereach_access, ereach_addProcess, ereach_new).
  split; [exact H | exact (accesses_are_hits_or_faults _ H)].
Defined.


(** X15: an access to a page in RAM touches no frame, free-frame list or
    swap block; it records the access on the page at [simulationTime],
    adds one to [memoryAccesses] and [hitCount], none to the faults, and
    fires only [onPageAccessed(page, 'hit')]. *)
Theorem accessPage_hit_effects (s : Engine.t) (pg : nat) (p : Page.t) (now : Z) :
  Engine.allPages s !! pg = Some p -> Page.location p = LRam ->
  let s' := Engine.run (Engine.accessPage (Some pg) now) s in
  Engine.frames s' = Engine.frames s /\ Engine.freeFrames s' = Engine.freeFrames s /\
  Engine.swapSystem s' = Engine.swapSystem s /\
  Engine.allPages s' = upd_page (Engine.allPages s) pg
                         (fun x => Page.access x (Engine.simulationTime s)) /\
  Engine.memoryAccesses (Engine.st s') = S (Engine.memoryAccesses (Engine.st s)) /\
  Engine.hitCount (Engine.st s') = S (Engine.hitCount (Engine.st s)) /\
  Engine.totalPageFaults (Engine.st s') = Engine.totalPageFaults (Engine.st s) /\
  Engine.events (Engine.accessPage (Some pg) now) s = [EvPageAccessedHit pg].
Proof.
  intros E Hl. cbv zeta. unfold Engine.accessPage. unfold_M.
  rewrite E. cbn. rewrite decide_True by done. cbn.
  destruct (Engine.policy s) as [q|l]; cbn; [repeat split|].
  destruct (LRU.onPageAccess l (Engine.allPages s) pg (Engine.simulationTime s)) as [l' ps'] eqn:El.
  unfold LRU.onPageAccess in El. injection El as <- <-. cbn. repeat split.
Qed.

Lemma accessPage_hit_effects_witness :
  Engine.allPages small_engine !! 0%nat = Some page0_resident /\ Page.location page0_resident = LRam /\
  (let s' := Engine.run (Engine.accessPage (Some 0%nat) 5) small_engine in
   Engine.frames s' = Engine.frames small_engine /\
   Engine.freeFrames s' = Engine.freeFrames small_engine /\
   Engine.swapSystem s' = Engine.swapSystem small_engine /\
   Engine.allPages s' = upd_page (Engine.allPages small_engine) 0
                          (fun x => Page.access x (Engine.simulationTime small_engine)) /\
   Engine.memoryAccesses (Engine.st s') = S (Engine.memoryAccesses (Engine.st small_engine)) /\
   Engine.hitCount (Engine.st s') = S (Engine.hitCount (Engine.st small_engine)) /\
   Engine.totalPageFaults (Engine.st s') = Engine.totalPageFaults (Engine.st small_engine) /\
   Engine.events (Engine.accessPage (Some 0%nat) 5) small_engine = [EvPageAccessedHit 0]).
Proof.
  assert (H1 : Engine.allPages small_engine !! 0%nat = Some page0_resident) by (vm_compute; reflexivity).
  assert (H2 : Page.location page0_resident = LRam) by reflexivity.
  split; [exact H1|]. split; [exact H2|].
  exact (accessPage_hit_effects small_engine 0 page0_resident 5 H1 H2).
Defined.


Lemma run_emit e s : Engine.run (Engine.emit e) s = s.
Proof. done. Qed.

Lemma run_ret {A} (a : A) s : Engine.run (mret a) s = s.
Proof. done. Qed.

Lemma owners_upd (m : gmap nat Page.t) k f :
  (forall p, Page.processId (f p) = Page.processId p) ->
  Page.processId <$> upd_page m k f = Page.processId <$> m.
Proof.
  intros Hf. apply map_eq. intros i. unfold upd_page.
  rewrite !lookup_fmap, lookup_alter. case_decide; [subst|done].
  destruct (m !! i); cbn; [by rewrite Hf|done].
Qed.

Lemma owners_allocatePageToFrame pg s :
  owners (Engine.run (Engine.allocatePageToFrame pg) s) = owners s.
Proof.
  unfold Engine.allocatePageToFrame, owners. unfold_M.
  destruct (Engine.freeFrames s) as [|f rest]; [done|]. cbn.
  destruct (Engine.policy s) as [q|l]; cbn.
  - unfold FIFO.onPageLoad. case_bool_decide; cbn; rewrite !owners_upd; done.
  - rewrite owners_upd; done.
Qed.

Lemma owners_swapAllocate pg now s :
  owners (Engine.run (Engine.swapAllocate pg now) s) = owners s.
Proof.
  unfold Engine.swapAllocate, owners, SwapSystem.allocateBlock. unfold_M.
  destruct (SwapSystem.freeBlocks (Engine.swapSystem s)); cbn; [done|].
  rewrite owners_upd; done.
Qed.

Lemma owners_allocateInitialPages pgs now s :
  owners (Engine.run (Engine.allocateInitialPages pgs now) s) = owners s.
Proof.
  revert s. induction pgs as [|pg pgs IH]; intros s; [done|].
  cbn [Engine.allocateInitialPages]. rewrite !run_bind. rewrite IH.
  cbn [Engine.get fst Engine.run snd].
  destruct (Engine.freeFrames s) as [|f rest].
  - rewrite run_bind. destruct (Engine.swapAllocate pg now s).1.1;
      rewrite ?run_emit, ?run_ret; apply owners_swapAllocate.
  - rewrite run_bind. apply owners_allocatePageToFrame.
Qed.

Lemma foldl_insert_pages (m : gmap nat Page.t) (pid c n k : nat) :
  foldl (fun m p => <[Page.id p := p]> m) m (map (fun i => Page.new i pid) (seq c n)) !! k =
  if decide (c <= k < c + n)%nat then Some (Page.new k pid) else m !! k.
Proof.
  revert c m. induction n as [|n IH]; intros c m.
  - cbn. rewrite decide_False by lia. done.
  - cbn [seq map foldl]. rewrite IH. cbn [Page.id Page.new]. rewrite lookup_insert.
    destruct (decide (S c <= k < S c + n)%nat); destruct (decide (c = k)) as [<-|];
      [lia| |..]; rewrite ?decide_True by lia; try done.
    destruct (decide (c <= k < c + S n)%nat); [lia|done].
Qed.

(** X16: [addProcess(name, n)] returns the id [processes.length], appends
    a process owning pages [pageIdCounter .. pageIdCounter+n-1], advances
    [pageIdCounter] by [n], registers each of those pages as owned by the
    new process, leaves the owner of every other page unchanged, and
    ends with [onProcessAdded]. *)
Theorem addProcess_registers_pages (name : string) (n : nat) (now : Z) (s : Engine.t) :
  let c := Engine.pageIdCounter s in
  let pid := length (Engine.processes s) in
  let '(r, s', es) := Engine.addProcess name n now s in
  r = pid /\
  Engine.processes s' = Engine.processes s ++ [Process.mk pid name n (seq c n) 0 0] /\
  Engine.pageIdCounter s' = (c + n)%nat /\
  (forall k, Page.processId <$> Engine.allPages s' !! k =
     if decide (c <= k < c + n)%nat then Some pid
     else Page.processId <$> Engine.allPages s !! k) /\
  last es = Some (EvProcessAdded pid).
Proof.
  cbv zeta. unfold Engine.addProcess.
  unfold mbind, mret, Engine.M_bind, Engine.M_ret, Engine.get, Engine.modify, Engine.emit.
  cbn -[Engine.allocateInitialPages foldl seq].
  match goal with |- context [Engine.allocateInitialPages ?l now ?s1] =>
    pose proof (owners_allocateInitialPages l now s1) as Ho;
    destruct (Engine.allocateInitialPages l now s1) as [[u s2] e2] eqn:E end.
  unfold Engine.run, owners in Ho. rewrite E in Ho. cbn in Ho.
  injection Ho as Hp Hc Hm. cbn. rewrite Hp, Hc.
  split; [done|]. split; [done|]. split; [done|]. split.
  - intros k. rewrite <- lookup_fmap, Hm, lookup_fmap, foldl_insert_pages.
    case_decide; done.
  - apply last_snoc.
Qed.

Lemma placement_upd (m : gmap nat Page.t) pg f k :
  k <> pg ->
  (fun p => (Page.location p, Page.frameId p)) <$> upd_page m pg f !! k =
  (fun p => (Page.location p, Page.frameId p)) <$> m !! k.
Proof. intros Hk. unfold upd_page. by rewrite lookup_alter_ne. Qed.

Lemma placement_allocatePageToFrame_ne pg s k :
  k <> pg -> placement (Engine.run (Engine.allocatePageToFrame pg) s) k = placement s k.
Proof.
  intros Hk. unfold Engine.allocatePageToFrame, placement. unfold_M.
  destruct (Engine.freeFrames s) as [|f rest]; [done|]. cbn.
  destruct (Engine.policy s) as [q|l]; cbn.
  - unfold FIFO.onPageLoad. case_bool_decide; cbn; rewrite !placement_upd; done.
  - rewrite placement_upd; done.
Qed.

Lemma placement_swapAllocate_ne pg now s k :
  k <> pg -> placement (Engine.run (Engine.swapAllocate pg now) s) k = placement s k.
Proof.
  intros Hk. unfold Engine.swapAllocate, placement, SwapSystem.allocateBlock. unfold_M.
  destruct (SwapSystem.freeBlocks (Engine.swapSystem s)); cbn; [done|].
  rewrite placement_upd; done.
Qed.

Lemma freeFrames_swapAllocate pg now s :
  Engine.freeFrames (Engine.run (Engine.swapAllocate pg now) s) = Engine.freeFrames s.
Proof.
  unfold Engine.swapAllocate. unfold_M.
  destruct (SwapSystem.allocateBlock _ _ _ _) as [[b sw] ps]. done.
Qed.

Lemma allocatePageToFrame_loads pg s f rest p :
  Engine.freeFrames s = f :: rest -> Engine.allPages s !! pg = Some p ->
  Engine.freeFrames (Engine.run (Engine.allocatePageToFrame pg) s) = rest /\
  placement (Engine.run (Engine.allocatePageToFrame pg) s) pg = Some (LRam, Some f).
Proof.
  intros Hf Hp. unfold Engine.allocatePageToFrame, placement. unfold_M.
  rewrite Hf. cbn.
  destruct (Engine.policy s) as [q|l]; cbn.
  - unfold FIFO.onPageLoad. case_bool_decide; cbn; unfold upd_page;
      rewrite !lookup_alter_eq, Hp; done.
  - unfold upd_page. rewrite lookup_alter_eq, Hp. done.
Qed.

Lemma placement_allocateInitialPages_out pgs now s k :
  k ∉ pgs -> placement (Engine.run (Engine.allocateInitialPages pgs now) s) k = placement s k.
Proof.
  revert s. induction pgs as [|pg pgs IH]; intros s Hk; [done|].
  cbn [Engine.allocateInitialPages]. rewrite !run_bind. rewrite IH by set_solver.
  cbn [Engine.get fst Engine.run snd].
  destruct (Engine.freeFrames s) as [|f rest].
  - rewrite run_bind. destruct (Engine.swapAllocate pg now s).1.1;
      rewrite ?run_emit, ?run_ret; apply placement_swapAllocate_ne; set_solver.
  - rewrite run_bind, run_ret. apply placement_allocatePageToFrame_ne. set_solver.
Qed.

Lemma allocateInitialPages_fill pgs now s :
  NoDup pgs -> (forall k, k ∈ pgs -> is_Some (Engine.allPages s !! k)) ->
  let s' := Engine.run (Engine.allocateInitialPages pgs now) s in
  Engine.freeFrames s' = drop (length pgs) (Engine.freeFrames s) /\
  forall i k f, pgs !! i = Some k -> Engine.freeFrames s !! i = Some f ->
    placement s' k = Some (LRam, Some f).
Proof.
  revert s. induction pgs as [|pg pgs IH]; intros s Hnd Hin; cbv zeta.
  - split; [by rewrite drop_0|]. intros i k f Hk. done.
  - apply NoDup_cons in Hnd as [Hpg Hnd].
    cbn [Engine.allocateInitialPages]. rewrite !run_bind.
    cbn [Engine.get fst Engine.run snd].
    destruct (Engine.freeFrames s) as [|f rest] eqn:Ef.
    + rewrite run_bind.
      set (s1 := Engine.run (Engine.swapAllocate pg now) s).
      assert (Hs1 : Engine.run (match (Engine.swapAllocate pg now s).1.1 with
                      | Some blk => Engine.emit (EvPageSwappedOut pg (Some blk))
                      | None => mret tt end) s1 = s1)
        by (destruct (Engine.swapAllocate pg now s).1.1; done).
      rewrite Hs1.
      assert (Hf1 : Engine.freeFrames s1 = []) by (unfold s1; by rewrite freeFrames_swapAllocate).
      destruct (IH s1 Hnd) as [H1 H2].
      { intros k Hk. unfold s1. pose proof (placement_swapAllocate_ne pg now s k) as Hp.
        unfold placement in Hp. rewrite <- (fmap_is_Some (fun p => (Page.location p, Page.frameId p))).
        rewrite Hp by (intros ->; done). rewrite fmap_is_Some. apply Hin. set_solver. }
      split; [rewrite H1, Hf1, !drop_nil; done|].
      intros i k f Hk Hf. rewrite lookup_nil in Hf. done.
    + destruct (Hin pg ltac:(set_solver)) as [p Hp].
      rewrite run_bind, run_ret.
      set (s1 := Engine.run (Engine.allocatePageToFrame pg) s).
      destruct (allocatePageToFrame_loads pg s f rest p Ef Hp) as [Hf1 Hpl].
      fold s1 in Hf1, Hpl.
      destruct (IH s1 Hnd) as [H1 H2].
      { intros k Hk. unfold s1. pose proof (placement_allocatePageToFrame_ne pg s k) as Hq.
        unfold placement in Hq. rewrite <- (fmap_is_Some (fun p => (Page.location p, Page.frameId p))).
        rewrite Hq by (intros ->; done). rewrite fmap_is_Some. apply Hin. set_solver. }
      split; [rewrite H1, Hf1; done|].
      intros [|i] k g Hk Hg; cbn in Hk, Hg.
      * injection Hk as <-. injection Hg as <-.
        rewrite placement_allocateInitialPages_out by done. exact Hpl.
      * rewrite Hf1 in H2. by apply (H2 i).
Qed.

(** X17: [addProcess] loads its pages into the free frames in order: the
    [i]-th new page goes to RAM in the [i]-th free frame while free frames
    last, and the free-frame list loses its first [n] entries. *)
Theorem addProcess_fills_free_frames (name : string) (n : nat) (now : Z) (s : Engine.t) :
  let c := Engine.pageIdCounter s in
  let s' := Engine.run (Engine.addProcess name n now) s in
  Engine.freeFrames s' = drop n (Engine.freeFrames s) /\
  forall i f, (i < n)%nat -> Engine.freeFrames s !! i = Some f ->
    exists p, Engine.allPages s' !! (c + i)%nat = Some p /\
              Page.location p = LRam /\ Page.frameId p = Some f.
Proof.
  cbv zeta. unfold Engine.addProcess. rewrite !run_bind.
  cbn [Engine.get fst Engine.run snd Engine.modify].
  cbv beta iota zeta delta [Process.createPages Process.new Process.pageCount Process.id Process.pages Process.name Process.totalAccesses Process.pageFaults].
  rewrite !run_bind. cbn [Engine.get fst Engine.run snd Engine.modify]. rewrite run_ret, run_emit.
  set (s1 := Engine.set_processes _ _).
  destruct (allocateInitialPages_fill (seq (Engine.pageIdCounter s) n) now s1) as [H1 H2].
  - apply NoDup_seq.
  - intros k Hk. apply elem_of_seq in Hk. cbn. rewrite foldl_insert_pages.
    rewrite decide_True by lia. eauto.
  - rewrite length_seq in H1. split; [exact H1|].
    intros i f Hi Hf. 
    assert (Hp : placement (Engine.run (Engine.allocateInitialPages (seq (Engine.pageIdCounter s) n) now) s1)
                   (Engine.pageIdCounter s + i) = Some (LRam, Some f)).
    { apply (H2 i); [apply lookup_seq; split; [done|lia]|exact Hf]. }
    unfold placement in Hp.
    destruct (Engine.allPages _ !! _) as [p|] eqn:E; [|done].
    injection Hp as Hl Hfr. eauto.
Qed.
